(** * Fragment-length model of [utilities/compute_fraglen.py]

    A shallow embedding of the statistics pipeline of [compute_fraglen.py]:
    [median], [median_absolute_deviation], [count_frags], [compute_probs] and
    the straight-line part of [main].

    Modelling conventions.
    - A Python number is a [num]: an [int] (unbounded, [Z]) or a [float].
      A float carries its exact rational value in lowest terms, so float
      arithmetic is the exact one.  For template lengths as an alignment
      file holds them (32-bit) every float the median, the deviation and
      the upper bound go through is a multiple of 1/4 of small magnitude,
      which binary floating point represents exactly; only the final
      normalisation [n / count_sum] is rounded by the implementation.
    - An operation that can raise returns a [result]: [Ok v] or [Raise e].
    - The external alignment reader is an input of the model: what opening
      the file does ([open_outcome]), which records iteration yields and
      whether iteration raises before the end.
    - The iteration order of [list(set(datalist))] is left open: a
      [SetEnum] gives one enumeration without repetition of the elements. *)

From Stdlib Require Import String ZArith QArith Qabs Qreduction List Bool.
From Stdlib Require Import Sorted Permutation Lia Lqa.
Import ListNotations.

Local Open Scope Z_scope.

(** ** Exceptions and fallible computations *)

Inductive exn : Type :=
| IndexError
| ZeroDivisionError
| ValueError
| OSError
| SystemExit (code : Z).

Inductive result (A : Type) : Type :=
| Ok (a : A)
| Raise (e : exn).

Arguments Ok {A} a.
Arguments Raise {A} e.

Definition bind {A B : Type} (r : result A) (k : A -> result B) : result B :=
  match r with
  | Ok a => k a
  | Raise e => Raise e
  end.

Notation "x <- r ;; k" := (bind r (fun x => k))
  (at level 61, r at next level, right associativity).

(** [[f x for x in l]] with a body that can raise. *)
Fixpoint comprehension {A B : Type} (f : A -> result B) (l : list A)
  : result (list B) :=
  match l with
  | [] => Ok []
  | x :: l' => y <- f x ;; ys <- comprehension f l' ;; Ok (y :: ys)
  end.

(** ** Python numbers *)

Inductive num : Type :=
| PInt (z : Z)
| PFloat (q : Q).

Definition num_val (n : num) : Q :=
  match n with
  | PInt z => inject_Z z
  | PFloat q => q
  end.

(** [a + b]: int when both are int, float otherwise. *)
Definition num_add (a b : num) : num :=
  match a, b with
  | PInt x, PInt y => PInt (x + y)
  | _, _ => PFloat (Qred (num_val a + num_val b))
  end.

(** [a - b]. *)
Definition num_sub (a b : num) : num :=
  match a, b with
  | PInt x, PInt y => PInt (x - y)
  | _, _ => PFloat (Qred (num_val a - num_val b))
  end.

(** [a * b]. *)
Definition num_mul (a b : num) : num :=
  match a, b with
  | PInt x, PInt y => PInt (x * y)
  | _, _ => PFloat (Qred (num_val a * num_val b))
  end.

(** [abs(a)]. *)
Definition num_abs (a : num) : num :=
  match a with
  | PInt x => PInt (Z.abs x)
  | PFloat q => PFloat (Qred (Qabs q))
  end.

(** [a / b]: true division, always a float; raises on a zero divisor. *)
Definition num_truediv (a b : num) : result num :=
  if Qeq_bool (num_val b) 0 then Raise ZeroDivisionError
  else Ok (PFloat (Qred (num_val a / num_val b))).

(** [float(a)]. *)
Definition num_float (a : num) : num := PFloat (Qred (num_val a)).

(** [a <= b] and [a < b] compare the values, whatever the types. *)
Definition num_leb (a b : num) : bool := Qle_bool (num_val a) (num_val b).
Definition num_ltb (a b : num) : bool := negb (Qle_bool (num_val b) (num_val a)).

(** [a == b]. *)
Definition num_eqb (a b : num) : bool := Qeq_bool (num_val a) (num_val b).

(** ** Lists *)

(** [l[i]] with Python's negative indices; out of range raises. *)
Definition getitem {A : Type} (l : list A) (i : Z) : result A :=
  let n := Z.of_nat (length l) in
  let j := if i <? 0 then i + n else i in
  if (j <? 0) || (n <=? j) then Raise IndexError
  else match nth_error l (Z.to_nat j) with
       | Some x => Ok x
       | None => Raise IndexError
       end.

(** [sorted(l)]: a stable sort that only uses the elements' [<]. *)
Section Sorted.
Context {A : Type} (ltb : A -> A -> bool).

Fixpoint insert_sorted (x : A) (l : list A) : list A :=
  match l with
  | [] => [x]
  | y :: l' => if ltb y x then y :: insert_sorted x l' else x :: y :: l'
  end.

Fixpoint sorted (l : list A) : list A :=
  match l with
  | [] => []
  | x :: l' => insert_sorted x (sorted l')
  end.
End Sorted.

(** [l.count(x)] on a list of ints. *)
Definition list_count (l : list Z) (x : Z) : Z :=
  Z.of_nat (count_occ Z.eq_dec l x).

(** [sum(l)] on a list of ints. *)
Definition list_sum (l : list Z) : Z := fold_left Z.add l 0.

(** [min(l)] and [max(l)] of a non-empty list: the first smallest and the
    first largest element. *)
Definition list_min (x : num) (l : list num) : num :=
  fold_left (fun m y => if num_ltb y m then y else m) l x.
Definition list_max (x : num) (l : list num) : num :=
  fold_left (fun m y => if num_ltb m y then y else m) l x.

(** A list of ints as a list of numbers. *)
Definition ints (l : list Z) : list num := map PInt l.

(** ** Robust statistics *)

Definition median (datalist : list num) : result num :=
  let len := Z.of_nat (length datalist) in
  let midpoint := len / 2 in
  if len mod 2 =? 0 then
    a <- getitem datalist midpoint ;;
    b <- getitem datalist (midpoint - 1) ;;
    num_truediv (num_add a b) (PInt 2)
  else
    getitem datalist midpoint.

Definition median_absolute_deviation (datalist : list num) : result num :=
  my_median <- median datalist ;;
  let deviations :=
    map (fun item => num_abs (num_sub item my_median)) datalist in
  median (sorted num_ltb deviations).

(** ** Record filter *)

(** A reference id as the record exposes it: a number, or a name such as
    the same-reference sentinel ['=']. *)
Inductive refid : Type :=
| RefId (z : Z)
| RefName (s : string).

Definition refid_eqb (a b : refid) : bool :=
  match a, b with
  | RefId x, RefId y => x =? y
  | RefName s, RefName t => String.eqb s t
  | _, _ => false
  end.

Record AlignedSegment : Type := {
  flag : Z;
  mapping_quality : Z;
  reference_id : refid;
  next_reference_id : refid;
  template_length : Z
}.

(** What [fetch()] and the iteration over it can raise once the file is
    open: [ValueError] (the file has no index) or [OSError] (the file is
    truncated or cannot be read further). *)
Inductive fetch_error : Type :=
| NoIndex
| ReadError.

Definition exn_of_fetch_error (e : fetch_error) : exn :=
  match e with
  | NoIndex => ValueError
  | ReadError => OSError
  end.

(** What [pysam.AlignmentFile(file, 'rb')] does: it raises, or it gives a
    handle.  On a handle [fetch()] yields the records of the file to the
    end ([Opened]), or yields some records and then raises
    ([FetchRaised], with no record at all when [fetch()] itself raises). *)
Inductive open_outcome : Type :=
| Opened (records : list AlignedSegment)
| OpenRaised (e : exn)
| FetchRaised (yielded : list AlignedSegment) (e : fetch_error).

Definition reader : Type := string -> open_outcome.

(** What the program does to the outside, in order. *)
Inductive event : Type :=
| EvPrint (s : string)
| EvClose (file : string)
| EvDump (output : string) (values : list Z) (probabilities : list num).

(** A computation with effects: the events it emitted and how it ended. *)
Definition io (A : Type) : Type := (list event * result A)%type.

Definition io_ret {A : Type} (a : A) : io A := ([], Ok a).
Definition io_emit (e : event) : io unit := ([e], Ok tt).
Definition io_lift {A : Type} (r : result A) : io A := ([], r).

Definition io_bind {A B : Type} (m : io A) (k : A -> io B) : io B :=
  match m with
  | (t, Ok a) => let '(t', r) := k a in (t ++ t', r)
  | (t, Raise e) => (t, Raise e)
  end.

Notation "x <~ m ;; k" := (io_bind m (fun x => k))
  (at level 61, m at next level, right associativity).

(** The line feed that starts the two progress messages. *)
Definition newline : string := String (Ascii.ascii_of_nat 10) EmptyString.

Definition filter_mapqual : Z := 10.

(** The body of the loop of [count_frags]. *)
Definition count_frags_step (count_list : list Z) (item : AlignedSegment)
  : list Z :=
  let my_template_length := Z.abs (template_length item) in
  if negb (Z.land (flag item) 1 =? 0)
     && negb (Z.land (flag item) 64 =? 0)
     && (filter_mapqual <? mapping_quality item)
  then
    if refid_eqb (next_reference_id item) (RefName "=")
       || refid_eqb (next_reference_id item) (reference_id item)
    then count_list ++ [my_template_length]
    else count_list
  else count_list.

(** The handle is what iteration will do: the records it yields and the
    error that interrupts it, if any.  Only the call that opens the file is
    inside the [try]; the loop and the [close()] after it are not. *)
Definition count_frags (pysam : reader) (file : string) : io (list Z) :=
  file_to_parse <~
    match pysam file with
    | Opened records => io_ret (records, None)
    | FetchRaised yielded e => io_ret (yielded, Some e)
    | OpenRaised ValueError =>
        _ <~ io_emit (EvPrint "File type not recognized by pysam.") ;;
        io_lift (Raise (SystemExit 1))
    | OpenRaised e => io_lift (Raise e)
    end ;;
  let '(items, interrupted) := file_to_parse in
  let count_list := fold_left count_frags_step items [] in
  match interrupted with
  | Some e => io_lift (Raise (exn_of_fetch_error e))
  | None =>
      let count_list := sorted Z.ltb count_list in
      _ <~ io_emit (EvClose file) ;;
      io_ret count_list
  end.

(** ** Distribution builder *)

(** [list(set(datalist))]: the distinct elements, in some order. *)
Class SetEnum : Type := {
  list_set : list Z -> list Z;
  list_set_NoDup : forall l, NoDup (list_set l);
  list_set_In : forall l x, In x (list_set l) <-> In x l
}.

Definition FILTER_MINREADS : Z := 100.
Definition FILTER_MEDDEV_M : Z := 10.

Section Distribution.
Context {E : SetEnum}.

(** The body of the loop of [compute_probs], on the pair of lists it
    appends to. *)
Definition compute_probs_step (datalist : list Z) (med mad : num)
    (acc : list Z * list Z) (item : Z) : list Z * list Z :=
  let '(values, probabilities) := acc in
  if (0 <? item)
     && num_leb (PInt item) (num_add med (num_mul (PInt FILTER_MEDDEV_M) mad))
  then
    let data_count := list_count datalist item in
    if FILTER_MINREADS <=? data_count
    then (values ++ [item], probabilities ++ [data_count])
    else (values, probabilities)
  else (values, probabilities).

(** [datalist] is a list of ints, as [count_frags] returns it; the two
    statistics are numbers of either type and the probabilities are
    floats. *)
Definition compute_probs (datalist : list Z) : result (list Z * list num) :=
  med <- median (ints datalist) ;;
  mad <- median_absolute_deviation (ints datalist) ;;
  let '(values, probabilities) :=
    fold_left (compute_probs_step datalist med mad)
              (list_set datalist) ([], []) in
  let count_sum := num_float (PInt (list_sum probabilities)) in
  probabilities <-
    comprehension (fun n => num_truediv (PInt n) count_sum) probabilities ;;
  Ok (values, probabilities).

(** ** The pipeline of [main], after argument parsing *)

Definition main (pysam : reader) (input_file output_prefix : string)
  : io unit :=
  let output := (output_prefix ++ ".p")%string in
  all_tlens <~ count_frags pysam input_file ;;
  _ <~ io_emit (EvPrint (newline ++ "Saving model...")) ;;
  out <~ io_lift (compute_probs all_tlens) ;;
  let '(out_vals, out_probs) := out in
  _ <~ io_emit (EvDump output out_vals out_probs) ;;
  io_emit (EvPrint (newline ++ "Model successfully saved.")).
End Distribution.

(** The status the process ends with: 0 on a normal return, the code of an
    uncaught [SystemExit], 1 on any other uncaught exception. *)
Definition exit_status {A : Type} (r : result A) : Z :=
  match r with
  | Ok _ => 0
  | Raise (SystemExit code) => code
  | Raise _ => 1
  end.

(** An enumeration of the distinct elements: each at its last occurrence. *)
#[export] Instance nodup_enum : SetEnum := {|
  list_set := nodup Z.eq_dec;
  list_set_NoDup := NoDup_nodup Z.eq_dec;
  list_set_In := nodup_In Z.eq_dec
|}.

(** Another one: the same elements the other way round. *)
Definition rev_nodup_enum : SetEnum := {|
  list_set := fun l => rev (nodup Z.eq_dec l);
  list_set_NoDup := fun l => NoDup_rev (NoDup_nodup Z.eq_dec l);
  list_set_In := fun l x =>
    iff_trans (iff_sym (in_rev (nodup Z.eq_dec l) x)) (nodup_In Z.eq_dec l x)
|}.

(** Sums of the values of a list of numbers. *)
Definition sum_vals (l : list num) : Q :=
  fold_right (fun p acc => (num_val p + acc)%Q) 0%Q l.

(** ** Vocabulary of the statements *)

(** The order of numbers by value. *)
Definition num_le (a b : num) : Prop := (num_val a <= num_val b)%Q.

(** A record counts: paired (bit 0 of the flag), first in pair (bit 6),
    mapping quality above 10, mate on the same reference. *)
Definition qualifying (r : AlignedSegment) : bool :=
  Z.testbit (flag r) 0
  && Z.testbit (flag r) 6
  && (10 <? mapping_quality r)
  && (refid_eqb (next_reference_id r) (RefName "=")
      || refid_eqb (next_reference_id r) (reference_id r)).

(** The upper bound [median + 10 * MAD], as a rational. *)
Definition upper_bound (med mad : num) : Q :=
  (num_val med + 10 * num_val mad)%Q.

(** A length is kept: positive, within the bound, seen 100 times or more. *)
Definition retained (datalist : list Z) (med mad : num) (v : Z) : Prop :=
  0 < v /\
  (inject_Z v <= upper_bound med mad)%Q /\
  100 <= list_count datalist v.

(** The same as a test. *)
Definition retainedb (datalist : list Z) (med mad : num) (v : Z) : bool :=
  (0 <? v)
  && Qle_bool (inject_Z v) (upper_bound med mad)
  && (100 <=? list_count datalist v).

(** The values kept from [datalist], in the order of enumeration, and the
    number of observations they stand for. *)
Definition kept {E : SetEnum} (datalist : list Z) (med mad : num) : list Z :=
  filter (retainedb datalist med mad) (list_set datalist).
Definition total {E : SetEnum} (datalist : list Z) (med mad : num) : Z :=
  list_sum (map (list_count datalist) (kept datalist med mad)).

(** Follows the spec's words: the median of a sequence in any order, that
    is the middle (or the average of the two middles) of its ascending
    arrangement. *)
Definition spec_median (S : list num) : result num :=
  median (sorted num_ltb S).

(** Follows the spec's words: the median [m] of the sequence, the absolute
    deviation [|x - m|] of every element, the median of the sorted
    deviations. *)
Definition spec_median_absolute_deviation (S : list num) : result num :=
  m <- spec_median S ;;
  median (sorted num_ltb (map (fun x => num_abs (num_sub x m)) S)).

(** A computation ended by an exception (of any kind). *)
Definition failed {A : Type} (m : io A) : Prop :=
  exists e, snd m = Raise e.

(** ** Sample inputs *)

Definition segment (f mq : Z) (ref next : refid) (tlen : Z) : AlignedSegment :=
  {| flag := f; mapping_quality := mq; reference_id := ref;
     next_reference_id := next; template_length := tlen |}.

(** Two records that count (a reverse-strand one with a negative template
    length, one whose mate is given by the sentinel) and four that do not:
    second in pair, unpaired, mapping quality 10, mate elsewhere. *)
Definition sample_records : list AlignedSegment :=
  [ segment 83 60 (RefId 0) (RefId 0) (-300);
    segment 147 60 (RefId 0) (RefId 0) 300;
    segment 64 60 (RefId 0) (RefId 0) 200;
    segment 67 10 (RefId 0) (RefId 0) 250;
    segment 65 60 (RefId 0) (RefId 1) 5000;
    segment 99 11 (RefId 2) (RefName "=") 150 ].

(** A reader for which every file holds the sample records, one for which
    every file is empty, and one that recognises no file. *)
Definition sample_reader : reader := fun _ => Opened sample_records.
Definition empty_reader : reader := fun _ => Opened [].
Definition unrecognized_reader : reader := fun _ => OpenRaised ValueError.

(** A reader for which every file opens but has no index, and one for
    which every file breaks off after its first two records. *)
Definition unindexed_reader : reader := fun _ => FetchRaised [] NoIndex.
Definition truncated_reader : reader :=
  fun _ => FetchRaised (firstn 2 sample_records) ReadError.

(** * Properties *)

(** The doctests of the two functions. *)
Definition sample35 : list Z :=
  [2183; 2292; 4064; 4795; 7471; 12766; 14603; 15182; 16803; 18704; 21504;
   21677; 23347; 23586; 24612; 24878; 25310; 25993; 26448; 28018; 28352;
   28373; 28786; 30037; 31659; 31786; 33487; 33531; 34442; 39138; 39718;
   39815; 41518; 41934; 43301].

Definition sample10 : list Z := [1; 2; 4; 6; 8; 12; 14; 15; 17; 21].

Example median_doctest_1 : median (ints [2]) = Ok (PInt 2).
Proof. reflexivity. Qed.

Example median_doctest_2 : median (ints sample35) = Ok (PInt 25993).
Proof. reflexivity. Qed.

Example median_doctest_3 : median (ints sample10) = Ok (PFloat 10).
Proof. reflexivity. Qed.

Example mad_doctest_1 :
  median_absolute_deviation (ints sample35) = Ok (PInt 7494).
Proof. reflexivity. Qed.

Example mad_doctest_2 :
  median_absolute_deviation (ints sample10) = Ok (PFloat (11 # 2)).
Proof. reflexivity. Qed.

Example mad_doctest_3 :
  median_absolute_deviation (ints [0; 2]) = Ok (PFloat 1).
Proof. reflexivity. Qed.

(** The end-to-end scenarios of the distribution builder. *)
Example compute_probs_150_of_300 :
  compute_probs (repeat 300 150) = Ok ([300], [PFloat 1]).
Proof. vm_compute. reflexivity. Qed.

Example compute_probs_low_support :
  compute_probs (repeat 300 99 ++ repeat 301 99) = Ok ([], []).
Proof. vm_compute. reflexivity. Qed.

Example compute_probs_two_values :
  compute_probs (repeat 5 300 ++ repeat 6 100)
  = Ok ([5], [PFloat 1]).
Proof. vm_compute. reflexivity. Qed.

Example compute_probs_rev_order :
  @compute_probs rev_nodup_enum (repeat 5 300 ++ repeat 6 100 ++ repeat 4 100)
  = Ok ([4; 5], [PFloat (1 # 4); PFloat (3 # 4)]).
Proof. vm_compute. reflexivity. Qed.

(** ** Indexing *)

Lemma getitem_nth {A : Type} (l : list A) (i : nat) :
  (i < length l)%nat ->
  exists x, nth_error l i = Some x /\ getitem l (Z.of_nat i) = Ok x.
Proof.
  intros Hi.
  destruct (nth_error l i) as [x|] eqn:Hx.
  - exists x. split; [reflexivity|].
    assert (H0 : (Z.of_nat i <? 0) = false) by (apply Z.ltb_ge; lia).
    assert (H1 : (Z.of_nat (length l) <=? Z.of_nat i) = false)
      by (apply Z.leb_gt; lia).
    unfold getitem. cbv zeta. rewrite !H0, H1. simpl.
    rewrite Nat2Z.id, Hx. reflexivity.
  - apply nth_error_None in Hx. lia.
Qed.

Lemma getitem_nil {A : Type} (i : Z) : getitem (@nil A) i = Raise IndexError.
Proof.
  unfold getitem. simpl.
  destruct (i <? 0) eqn:Hi.
  - rewrite Z.add_0_r, Hi. reflexivity.
  - apply Z.ltb_ge in Hi.
    replace (0 <=? i) with true by (symmetry; apply Z.leb_le; lia).
    rewrite orb_true_r. reflexivity.
Qed.

Lemma num_val_add (a b : num) : num_val (num_add a b) == num_val a + num_val b.
Proof.
  destruct a, b; cbn [num_add num_val]; try apply Qred_correct.
  rewrite inject_Z_plus. reflexivity.
Qed.

Lemma num_val_sub (a b : num) : num_val (num_sub a b) == num_val a - num_val b.
Proof.
  destruct a, b; cbn [num_sub num_val]; try apply Qred_correct.
  unfold Z.sub. rewrite inject_Z_plus, inject_Z_opp. reflexivity.
Qed.

Lemma num_val_mul (a b : num) : num_val (num_mul a b) == num_val a * num_val b.
Proof.
  destruct a, b; cbn [num_mul num_val]; try apply Qred_correct.
  rewrite inject_Z_mult. reflexivity.
Qed.

Lemma num_val_abs (a : num) : num_val (num_abs a) == Qabs (num_val a).
Proof.
  destruct a; cbn [num_abs num_val]; [|apply Qred_correct].
  unfold inject_Z, Qabs. reflexivity.
Qed.

Lemma num_leb_le (a b : num) : num_leb a b = true <-> (num_val a <= num_val b)%Q.
Proof. apply Qle_bool_iff. Qed.

Lemma num_ltb_lt (a b : num) : num_ltb a b = true <-> (num_val a < num_val b)%Q.
Proof.
  unfold num_ltb. rewrite negb_true_iff.
  split; intros H.
  - apply Qnot_le_lt. intros Hle. apply Qle_bool_iff in Hle. congruence.
  - destruct (Qle_bool (num_val b) (num_val a)) eqn:Hle; [|reflexivity].
    apply Qle_bool_iff in Hle. exfalso. apply (Qlt_not_le _ _ H Hle).
Qed.

(** ** The median *)

(** The two shapes of the median, by the parity of the length. *)
Lemma median_odd (S : list num) :
  Nat.odd (length S) = true ->
  exists x, nth_error S (length S / 2) = Some x /\ median S = Ok x.
Proof.
  intros Hodd.
  assert (Hmod : (length S mod 2 = 1)%nat).
  { rewrite <- Nat.bit0_mod, Nat.bit0_odd, Hodd. reflexivity. }
  assert (Hpos : (0 < length S)%nat).
  { destruct S; [discriminate Hodd | simpl; lia]. }
  assert (Hlt : (length S / 2 < length S)%nat).
  { apply Nat.div_lt; lia. }
  destruct (getitem_nth S _ Hlt) as [x [Hx Hg]].
  exists x. split; [exact Hx|].
  unfold median.
  replace (Z.of_nat (length S) mod 2) with 1
    by (change 2 with (Z.of_nat 2); rewrite <- Nat2Z.inj_mod, Hmod; reflexivity).
  cbn [Z.eqb].
  change (Z.of_nat (length S) / 2) with (Z.of_nat (length S) / Z.of_nat 2).
  rewrite <- Nat2Z.inj_div. exact Hg.
Qed.

Lemma median_even (S : list num) :
  S <> [] ->
  Nat.even (length S) = true ->
  exists a b q,
    nth_error S (length S / 2) = Some a /\
    nth_error S (length S / 2 - 1) = Some b /\
    median S = Ok (PFloat q) /\
    q == (num_val a + num_val b) / 2.
Proof.
  intros Hne Heven.
  assert (Hmod : (length S mod 2 = 0)%nat).
  { pose proof (Nat.negb_even (length S)) as Ho. rewrite Heven in Ho.
    rewrite <- Nat.bit0_mod, Nat.bit0_odd, <- Ho. reflexivity. }
  assert (Hlen : (2 <= length S)%nat).
  { destruct S as [|x [|y S']]; simpl in *; try congruence; try lia. }
  assert (Hmid : (1 <= length S / 2)%nat).
  { apply Nat.div_le_lower_bound; lia. }
  assert (Hlt : (length S / 2 < length S)%nat).
  { apply Nat.div_lt; lia. }
  assert (Hlt' : (length S / 2 - 1 < length S)%nat) by lia.
  destruct (getitem_nth S _ Hlt) as [a [Ha Hga]].
  destruct (getitem_nth S _ Hlt') as [b [Hb Hgb]].
  exists a, b, (Qred (num_val (num_add a b) / 2)).
  repeat split; try assumption.
  - unfold median.
    replace (Z.of_nat (length S) mod 2) with 0
      by (change 2 with (Z.of_nat 2); rewrite <- Nat2Z.inj_mod, Hmod;
          reflexivity).
    cbn [Z.eqb].
    replace (Z.of_nat (length S) / 2 - 1)
      with (Z.of_nat (length S / 2 - 1))
      by (rewrite Nat2Z.inj_sub, Nat2Z.inj_div by lia; reflexivity).
    change (Z.of_nat (length S) / 2) with (Z.of_nat (length S) / Z.of_nat 2).
    rewrite <- Nat2Z.inj_div.
    rewrite Hga. cbn [bind]. rewrite Hgb. cbn [bind]. reflexivity.
  - rewrite Qred_correct, num_val_add. reflexivity.
Qed.

Lemma median_ok (S : list num) : S <> [] -> exists m, median S = Ok m.
Proof.
  intros Hne.
  destruct (Nat.odd (length S)) eqn:Hodd.
  - destruct (median_odd S Hodd) as [x [_ Hx]]. eauto.
  - assert (Heven : Nat.even (length S) = true).
    { rewrite <- Nat.negb_odd, Hodd. reflexivity. }
    destruct (median_even S Hne Heven) as [a [b [q [_ [_ [Hq _]]]]]]. eauto.
Qed.

(** Every element the median is made of lies between the smallest and the
    largest element. *)
Lemma list_min_lower (l : list num) (x : num) :
  num_le (list_min x l) x /\ forall y, In y l -> num_le (list_min x l) y.
Proof.
  revert x. induction l as [|z l IH]; intros x; simpl.
  - split; [apply Qle_refl | intros y []].
  - destruct (num_ltb z x) eqn:Hzx.
    + destruct (IH z) as [Hz Hl]. apply num_ltb_lt in Hzx.
      split.
      * unfold num_le in *. apply Qlt_le_weak in Hzx. eapply Qle_trans; eauto.
      * intros y [<-|Hy]; auto.
    + destruct (IH x) as [Hx Hl].
      assert (Hxz : num_le x z).
      { unfold num_le. apply Qnot_lt_le. intros Hlt.
        apply num_ltb_lt in Hlt. congruence. }
      split; [exact Hx|].
      intros y [<-|Hy]; auto.
      unfold num_le in *. eapply Qle_trans; eauto.
Qed.

Lemma list_max_upper (l : list num) (x : num) :
  num_le x (list_max x l) /\ forall y, In y l -> num_le y (list_max x l).
Proof.
  revert x. induction l as [|z l IH]; intros x; simpl.
  - split; [apply Qle_refl | intros y []].
  - destruct (num_ltb x z) eqn:Hxz.
    + destruct (IH z) as [Hz Hl]. apply num_ltb_lt in Hxz.
      split.
      * unfold num_le in *. apply Qlt_le_weak in Hxz. eapply Qle_trans; eauto.
      * intros y [<-|Hy]; auto.
    + destruct (IH x) as [Hx Hl].
      assert (Hzx : num_le z x).
      { unfold num_le. apply Qnot_lt_le. intros Hlt.
        apply num_ltb_lt in Hlt. congruence. }
      split; [exact Hx|].
      intros y [<-|Hy]; auto.
      unfold num_le in *. eapply Qle_trans; eauto.
Qed.

Lemma in_min_max (x : num) (l : list num) (y : num) :
  In y (x :: l) -> num_le (list_min x l) y /\ num_le y (list_max x l).
Proof.
  destruct (list_min_lower l x) as [Hm Hml].
  destruct (list_max_upper l x) as [HM HMl].
  intros [<-|Hy]; auto.
Qed.

(** C2: the median of a non-empty sequence (sorted or not) is its element
    at index [length/2] when the length is odd, and the float average of
    the elements at [length/2] and [length/2 - 1] when it is even; the
    median of [[2]] is the int 2 and that of the ten-element sample is the
    float 10.0. *)
Theorem median_middle_or_average (S : list num) :
  S <> [] ->
  (Nat.odd (length S) = true ->
   exists x, nth_error S (length S / 2) = Some x /\ median S = Ok x) /\
  (Nat.even (length S) = true ->
   exists a b q,
     nth_error S (length S / 2) = Some a /\
     nth_error S (length S / 2 - 1) = Some b /\
     median S = Ok (PFloat q) /\
     q == (num_val a + num_val b) / 2) /\
  median [PInt 2] = Ok (PInt 2) /\
  median (ints [1; 2; 4; 6; 8; 12; 14; 15; 17; 21]) = Ok (PFloat 10).
Proof.
  intros Hne. repeat split.
  - apply median_odd.
  - apply median_even. exact Hne.
Qed.

Lemma median_middle_or_average_witness :
  ints sample10 <> [] /\
  exists a b q,
    nth_error (ints sample10) 5 = Some a /\
    nth_error (ints sample10) 4 = Some b /\
    median (ints sample10) = Ok (PFloat q) /\
    q == (num_val a + num_val b) / 2.
Proof.
  assert (Hne : ints sample10 <> []) by discriminate.
  split; [exact Hne|].
  destruct (median_middle_or_average (ints sample10) Hne) as [_ [Heven _]].
  exact (Heven eq_refl).
Defined.

(** C8: the median of a non-empty sequence [x :: l] (sorted or not) exists
    and lies between its minimum and its maximum, both included. *)
Theorem median_between_min_max (x : num) (l : list num) :
  exists m,
    median (x :: l) = Ok m /\
    (num_val (list_min x l) <= num_val m)%Q /\
    (num_val m <= num_val (list_max x l))%Q.
Proof.
  set (S := x :: l).
  assert (Hne : S <> []) by discriminate.
  destruct (Nat.odd (length S)) eqn:Hodd.
  - destruct (median_odd S Hodd) as [y [Hy Hm]].
    exists y. split; [exact Hm|].
    apply nth_error_In in Hy. apply in_min_max in Hy. exact Hy.
  - assert (Heven : Nat.even (length S) = true).
    { rewrite <- Nat.negb_odd, Hodd. reflexivity. }
    destruct (median_even S Hne Heven) as [a [b [q [Ha [Hb [Hm Hq]]]]]].
    exists (PFloat q). split; [exact Hm|].
    apply nth_error_In in Ha, Hb.
    apply in_min_max in Ha, Hb. unfold num_le in *.
    destruct Ha as [Ha1 Ha2], Hb as [Hb1 Hb2].
    cbn [num_val]. rewrite Hq. split.
    + apply Qle_shift_div_l; [reflexivity|]. lra.
    + apply Qle_shift_div_r; [reflexivity|]. lra.
Qed.

(** ** Sorting *)

Section SortedFacts.
Context {A : Type} (ltb : A -> A -> bool) (le : A -> A -> Prop).
Hypothesis ltb_le : forall a b, ltb a b = true -> le a b.
Hypothesis nltb_le : forall a b, ltb a b = false -> le b a.

Lemma insert_sorted_perm (x : A) (l : list A) :
  Permutation (insert_sorted ltb x l) (x :: l).
Proof.
  induction l as [|y l IH]; simpl.
  - apply Permutation_refl.
  - destruct (ltb y x).
    + eapply perm_trans; [apply perm_skip, IH | apply perm_swap].
    + apply Permutation_refl.
Qed.

Lemma sorted_perm (l : list A) : Permutation (sorted ltb l) l.
Proof.
  induction l as [|x l IH]; simpl.
  - apply perm_nil.
  - eapply perm_trans; [apply insert_sorted_perm | apply perm_skip, IH].
Qed.

Lemma sorted_length (l : list A) : length (sorted ltb l) = length l.
Proof. apply Permutation_length, sorted_perm. Qed.

Lemma insert_sorted_HdRel (a x : A) (l : list A) :
  le a x -> HdRel le a l -> HdRel le a (insert_sorted ltb x l).
Proof.
  intros Hax Hal. destruct l as [|y l]; simpl.
  - constructor. exact Hax.
  - destruct (ltb y x); constructor.
    + inversion Hal; assumption.
    + exact Hax.
Qed.

Lemma insert_sorted_Sorted (x : A) (l : list A) :
  Sorted le l -> Sorted le (insert_sorted ltb x l).
Proof.
  induction l as [|y l IH]; intros Hs; simpl.
  - repeat constructor.
  - inversion Hs as [|? ? Hl Hhd]; subst.
    destruct (ltb y x) eqn:Hyx.
    + constructor; [apply IH, Hl|].
      apply insert_sorted_HdRel; [apply ltb_le, Hyx | exact Hhd].
    + constructor; [exact Hs|]. constructor. apply nltb_le, Hyx.
Qed.

Lemma sorted_Sorted (l : list A) : Sorted le (sorted ltb l).
Proof.
  induction l as [|x l IH]; simpl.
  - constructor.
  - apply insert_sorted_Sorted, IH.
Qed.
End SortedFacts.

Lemma sorted_num_Sorted (l : list num) : Sorted num_le (sorted num_ltb l).
Proof.
  apply sorted_Sorted; intros a b H; unfold num_le.
  - apply Qlt_le_weak, num_ltb_lt, H.
  - apply Qnot_lt_le. intros Hlt. apply num_ltb_lt in Hlt. congruence.
Qed.

Lemma sorted_Z_Sorted (l : list Z) : Sorted Z.le (sorted Z.ltb l).
Proof.
  apply sorted_Sorted; intros a b H.
  - apply Z.ltb_lt in H. lia.
  - apply Z.ltb_ge in H. exact H.
Qed.

(** ** The median absolute deviation *)

(** What the function does on a non-empty sequence as it is given: [m]
    is what [median] returns on it, each element [x] gives the deviation
    [|x - m|], the deviations are sorted in ascending order and the result
    is the median of that sorted sequence, which exists. *)
Lemma median_absolute_deviation_as_given (S : list num) :
  S <> [] ->
  exists m r,
    let deviations := map (fun x => num_abs (num_sub x m)) S in
    median S = Ok m /\
    Forall2 (fun x d => num_val d == Qabs (num_val x - num_val m))
            S deviations /\
    Permutation (sorted num_ltb deviations) deviations /\
    Sorted num_le (sorted num_ltb deviations) /\
    median (sorted num_ltb deviations) = Ok r /\
    median_absolute_deviation S = Ok r.
Proof.
  intros Hne.
  destruct (median_ok S Hne) as [m Hm].
  set (deviations := map (fun x => num_abs (num_sub x m)) S).
  assert (Hdev : sorted num_ltb deviations <> []).
  { intros Hnil. apply (f_equal (@length num)) in Hnil.
    rewrite sorted_length in Hnil. unfold deviations in Hnil.
    rewrite length_map in Hnil. destruct S; [congruence|discriminate]. }
  destruct (median_ok _ Hdev) as [r Hr].
  exists m, r. cbv zeta. fold deviations.
  repeat split.
  - exact Hm.
  - unfold deviations. clear. induction S as [|x S IH]; simpl; constructor.
    + rewrite num_val_abs, num_val_sub. reflexivity.
    + exact IH.
  - apply sorted_perm.
  - apply sorted_num_Sorted.
  - exact Hr.
  - unfold median_absolute_deviation. rewrite Hm. cbn [bind]. exact Hr.
Qed.

(** Sorting a sequence that is in ascending order leaves it as it is. *)
Lemma sorted_of_Sorted (S : list num) :
  Sorted num_le S -> sorted num_ltb S = S.
Proof.
  induction 1 as [|x l Hl IH Hhd]; [reflexivity|].
  cbn [sorted]. rewrite IH.
  destruct Hhd as [|y l' Hxy]; [reflexivity|].
  cbn [insert_sorted].
  destruct (num_ltb y x) eqn:Hyx; [|reflexivity].
  apply num_ltb_lt in Hyx. unfold num_le in Hxy.
  exfalso. apply (Qlt_not_le _ _ Hyx Hxy).
Qed.

(** C3, as the code has it: for a non-empty sequence in ascending order
    the function takes the median [m] of the sequence, the deviation
    [|x - m|] of every element and the median of the deviations sorted in
    ascending order, and so agrees with the deviation as the
    specification words it.  On the ten-element sample the result is 5.5
    and on [[0, 2]] it is 1.0. *)
Theorem median_absolute_deviation_sorted (S : list num) :
  S <> [] ->
  Sorted num_le S ->
  (exists m r,
     let deviations := map (fun x => num_abs (num_sub x m)) S in
     spec_median S = Ok m /\
     median S = Ok m /\
     Forall2 (fun x d => num_val d == Qabs (num_val x - num_val m))
             S deviations /\
     Permutation (sorted num_ltb deviations) deviations /\
     Sorted num_le (sorted num_ltb deviations) /\
     median (sorted num_ltb deviations) = Ok r /\
     median_absolute_deviation S = Ok r /\
     spec_median_absolute_deviation S = Ok r) /\
  median_absolute_deviation (ints [1; 2; 4; 6; 8; 12; 14; 15; 17; 21])
  = Ok (PFloat (11 # 2)) /\
  median_absolute_deviation (ints [0; 2]) = Ok (PFloat 1).
Proof.
  intros Hne Hs. split; [|split; reflexivity].
  destruct (median_absolute_deviation_as_given S Hne)
    as [m [r [Hm [Hdev [Hperm [Hsorted [Hr Hmad]]]]]]].
  assert (Hspec : spec_median S = Ok m).
  { unfold spec_median. rewrite (sorted_of_Sorted S Hs). exact Hm. }
  exists m, r. cbv zeta. repeat split; try assumption.
  unfold spec_median_absolute_deviation. rewrite Hspec. cbn [bind]. exact Hr.
Qed.

Lemma median_absolute_deviation_sorted_witness :
  ints sample10 <> [] /\
  Sorted num_le (ints sample10) /\
  median_absolute_deviation (ints sample10) = Ok (PFloat (11 # 2)) /\
  spec_median_absolute_deviation (ints sample10) = Ok (PFloat (11 # 2)).
Proof.
  assert (Hne : ints sample10 <> []) by discriminate.
  assert (Hs : Sorted num_le (ints sample10)).
  { repeat constructor; unfold num_le; cbn; discriminate. }
  split; [exact Hne|]. split; [exact Hs|].
  destruct (median_absolute_deviation_sorted (ints sample10) Hne Hs)
    as [[m [r [_ [_ [_ [_ [_ [_ [Hmad Hspec]]]]]]]]] _].
  assert (Hr : r = PFloat (11 # 2)).
  { assert (Hc : median_absolute_deviation (ints sample10)
                 = Ok (PFloat (11 # 2))) by reflexivity.
    rewrite Hc in Hmad. injection Hmad as <-. reflexivity. }
  rewrite Hr in Hmad, Hspec. split; [exact Hmad | exact Hspec].
Defined.

(** C3 as stated fails on a sequence that is not in ascending order: the
    function takes the middle of the sequence as given, which [median] does
    not sort, instead of its median.  On [[0, 10, 1]] the median is 1 and
    the deviation 1, but the function starts from 10 and returns 9; on the
    same numbers in ascending order it returns 1. *)
Lemma median_absolute_deviation_unsorted :
  ints [0; 10; 1] <> [] /\
  spec_median (ints [0; 10; 1]) = Ok (PInt 1) /\
  median (ints [0; 10; 1]) = Ok (PInt 10) /\
  spec_median_absolute_deviation (ints [0; 10; 1]) = Ok (PInt 1) /\
  median_absolute_deviation (ints [0; 10; 1]) = Ok (PInt 9) /\
  median_absolute_deviation (ints [0; 1; 10]) = Ok (PInt 1) /\
  median_absolute_deviation (ints [0; 10; 1])
  <> spec_median_absolute_deviation (ints [0; 10; 1]).
Proof. repeat split; try reflexivity; discriminate. Qed.

(** ** The record filter *)

Lemma land_pow2_eqb (a k : Z) :
  0 <= k -> negb (Z.land a (2 ^ k) =? 0) = Z.testbit a k.
Proof.
  intros Hk.
  assert (Hland : Z.land a (2 ^ k) = if Z.testbit a k then 2 ^ k else 0).
  { apply Z.bits_inj'. intros n Hn.
    rewrite Z.land_spec, Z.pow2_bits_eqb by exact Hk.
    destruct (Z.eqb_spec k n) as [->|Hkn].
    - rewrite andb_true_r. destruct (Z.testbit a n) eqn:Ha.
      + rewrite Z.pow2_bits_true by exact Hn. reflexivity.
      + rewrite Z.bits_0. reflexivity.
    - rewrite andb_false_r. destruct (Z.testbit a k).
      + rewrite Z.pow2_bits_false by congruence. reflexivity.
      + rewrite Z.bits_0. reflexivity. }
  rewrite Hland. destruct (Z.testbit a k).
  - assert (0 < 2 ^ k) by (apply Z.pow_pos_nonneg; lia).
    destruct (Z.eqb_spec (2 ^ k) 0); [lia | reflexivity].
  - reflexivity.
Qed.

Lemma count_frags_step_qualifying (count_list : list Z) (item : AlignedSegment) :
  count_frags_step count_list item =
  if qualifying item then count_list ++ [Z.abs (template_length item)]
  else count_list.
Proof.
  unfold count_frags_step, qualifying, filter_mapqual.
  change 1 with (2 ^ 0). change 64 with (2 ^ 6).
  rewrite !land_pow2_eqb by lia.
  destruct (Z.testbit (flag item) 0 && Z.testbit (flag item) 6
            && (10 <? mapping_quality item)); reflexivity.
Qed.

Lemma count_frags_loop (records : list AlignedSegment) (count_list : list Z) :
  fold_left count_frags_step records count_list =
  count_list
    ++ map (fun r => Z.abs (template_length r)) (filter qualifying records).
Proof.
  revert count_list. induction records as [|r records IH]; intros count_list.
  - simpl. rewrite app_nil_r. reflexivity.
  - cbn [fold_left filter]. rewrite IH, count_frags_step_qualifying.
    destruct (qualifying r); [|reflexivity].
    cbn [map]. rewrite <- app_assoc. reflexivity.
Qed.

(** C6: on a file that opens, [count_frags] returns (and closes the file):
    the result is in ascending order and holds exactly the absolute
    template lengths, with their multiplicities, of the records that are
    paired, first in pair, of mapping quality above 10 and whose mate is on
    the same reference; the other records contribute nothing. *)
Theorem count_frags_sorted_qualifying
    (pysam : reader) (file : string) (records : list AlignedSegment) :
  pysam file = Opened records ->
  exists count_list,
    count_frags pysam file = ([EvClose file], Ok count_list) /\
    Sorted Z.le count_list /\
    Permutation count_list
      (map (fun r => Z.abs (template_length r)) (filter qualifying records)).
Proof.
  intros Hopen.
  exists (sorted Z.ltb (fold_left count_frags_step records [])).
  split; [|split].
  - unfold count_frags. rewrite Hopen. reflexivity.
  - apply sorted_Z_Sorted.
  - rewrite count_frags_loop. apply sorted_perm.
Qed.

Lemma count_frags_sorted_qualifying_witness :
  sample_reader "sample.bam"%string = Opened sample_records /\
  exists count_list,
    count_frags sample_reader "sample.bam"%string
    = ([EvClose "sample.bam"], Ok count_list) /\
    Sorted Z.le count_list /\
    Permutation count_list [300; 150].
Proof.
  split; [reflexivity|].
  exact (count_frags_sorted_qualifying sample_reader "sample.bam"%string
           sample_records eq_refl).
Defined.

Example count_frags_sample :
  count_frags sample_reader "sample.bam"%string
  = ([EvClose "sample.bam"], Ok [150; 300]).
Proof. reflexivity. Qed.

Example count_frags_unrecognized :
  count_frags unrecognized_reader "notes.txt"%string
  = ([EvPrint "File type not recognized by pysam."], Raise (SystemExit 1)).
Proof. reflexivity. Qed.

Example count_frags_missing_file :
  count_frags (fun _ => OpenRaised OSError) "missing.bam"%string
  = ([], Raise OSError).
Proof. reflexivity. Qed.

(** ** The distribution builder *)

Lemma retainedb_spec (datalist : list Z) (med mad : num) (v : Z) :
  retainedb datalist med mad v = true <-> retained datalist med mad v.
Proof.
  unfold retainedb, retained.
  rewrite !andb_true_iff, Z.ltb_lt, Z.leb_le, Qle_bool_iff. tauto.
Qed.

Lemma upper_bound_val (med mad : num) :
  num_val (num_add med (num_mul (PInt FILTER_MEDDEV_M) mad))
  == upper_bound med mad.
Proof.
  unfold upper_bound. rewrite num_val_add, num_val_mul. reflexivity.
Qed.

Lemma compute_probs_step_retained (datalist : list Z) (med mad : num)
    (values probabilities : list Z) (item : Z) :
  compute_probs_step datalist med mad (values, probabilities) item =
  if retainedb datalist med mad item
  then (values ++ [item], probabilities ++ [list_count datalist item])
  else (values, probabilities).
Proof.
  unfold compute_probs_step, retainedb, num_leb, FILTER_MINREADS.
  assert (Hb : Qle_bool (num_val (PInt item))
                 (num_val (num_add med (num_mul (PInt FILTER_MEDDEV_M) mad)))
               = Qle_bool (inject_Z item) (upper_bound med mad)).
  { apply eq_true_iff_eq. rewrite !Qle_bool_iff, upper_bound_val.
    reflexivity. }
  rewrite Hb.
  destruct (0 <? item); [|reflexivity].
  destruct (Qle_bool (inject_Z item) (upper_bound med mad)); reflexivity.
Qed.

Lemma compute_probs_loop (datalist : list Z) (med mad : num)
    (items values probabilities : list Z) :
  fold_left (compute_probs_step datalist med mad) items (values, probabilities)
  = (values ++ filter (retainedb datalist med mad) items,
     probabilities
       ++ map (list_count datalist) (filter (retainedb datalist med mad) items)).
Proof.
  revert values probabilities.
  induction items as [|item items IH]; intros values probabilities.
  - simpl. rewrite !app_nil_r. reflexivity.
  - cbn [fold_left filter]. rewrite compute_probs_step_retained.
    destruct (retainedb datalist med mad item); rewrite IH; [|reflexivity].
    cbn [map]. rewrite <- !app_assoc. reflexivity.
Qed.

Lemma fold_left_add_shift (l : list Z) (a : Z) :
  fold_left Z.add l a = a + fold_left Z.add l 0.
Proof.
  revert a. induction l as [|y l IH]; intros a; simpl.
  - lia.
  - rewrite (IH (a + y)), (IH y). lia.
Qed.

Lemma list_sum_cons (x : Z) (l : list Z) : list_sum (x :: l) = x + list_sum l.
Proof. unfold list_sum. simpl. apply fold_left_add_shift. Qed.

Lemma list_sum_pos (l : list Z) :
  l <> [] -> Forall (fun c => 100 <= c) l -> 0 < list_sum l.
Proof.
  intros Hne Hall.
  assert (Hlen : 100 * Z.of_nat (length l) <= list_sum l).
  { clear Hne. induction Hall as [|c l Hc Hall IH].
    - reflexivity.
    - rewrite list_sum_cons. cbn [length]. lia. }
  destruct l; [congruence | cbn [length] in Hlen; lia].
Qed.

Lemma comprehension_truediv (count_sum : num) (l : list Z) :
  ~ num_val count_sum == 0 ->
  comprehension (fun n => num_truediv (PInt n) count_sum) l
  = Ok (map (fun n => PFloat (Qred (inject_Z n / num_val count_sum))) l).
Proof.
  intros Hnz.
  assert (Hb : Qeq_bool (num_val count_sum) 0 = false).
  { destruct (Qeq_bool (num_val count_sum) 0) eqn:Hq; [|reflexivity].
    apply Qeq_bool_iff in Hq. contradiction. }
  induction l as [|n l IH]; [reflexivity|].
  cbn [comprehension map]. unfold num_truediv at 1. rewrite Hb.
  cbn [bind num_val]. rewrite IH. reflexivity.
Qed.

Lemma sum_vals_normalised (f : Z -> Z) (T : Q) (l : list Z) :
  sum_vals (map (fun v => PFloat (Qred (inject_Z (f v) / T))) l)
  == inject_Z (list_sum (map f l)) / T.
Proof.
  induction l as [|v l IH].
  - unfold Qdiv. cbn. ring.
  - cbn [map sum_vals fold_right num_val]. fold (sum_vals
      (map (fun v => PFloat (Qred (inject_Z (f v) / T))) l)).
    rewrite IH, Qred_correct, list_sum_cons, inject_Z_plus.
    unfold Qdiv. ring.
Qed.

Lemma median_absolute_deviation_ok (S : list num) :
  S <> [] -> exists r, median_absolute_deviation S = Ok r.
Proof.
  intros Hne. destruct (median_ok S Hne) as [m Hm].
  unfold median_absolute_deviation. rewrite Hm. cbn [bind].
  apply median_ok. intros Hnil.
  apply (f_equal (@length num)) in Hnil.
  rewrite sorted_length, length_map in Hnil.
  destruct S; [congruence | discriminate].
Qed.

Lemma ints_nonempty (datalist : list Z) : datalist <> [] -> ints datalist <> [].
Proof. destruct datalist; [congruence | discriminate]. Qed.

Lemma median_nonempty (S : list num) (m : num) : median S = Ok m -> S <> [].
Proof.
  intros Hm ->. discriminate Hm.
Qed.

Section DistributionFacts.
Context {E : SetEnum}.

Lemma kept_counts (datalist : list Z) (med mad : num) :
  Forall (fun c => 100 <= c)
         (map (list_count datalist) (kept datalist med mad)).
Proof.
  apply Forall_map, Forall_forall. intros v Hv.
  apply filter_In in Hv. destruct Hv as [_ Hv].
  apply retainedb_spec in Hv. apply Hv.
Qed.

Lemma total_pos (datalist : list Z) (med mad : num) :
  kept datalist med mad <> [] -> 0 < total datalist med mad.
Proof.
  intros Hne. apply list_sum_pos; [|apply kept_counts].
  intros Hnil. apply map_eq_nil in Hnil. contradiction.
Qed.

(** What [compute_probs] returns once the two statistics exist. *)
Lemma compute_probs_eq (datalist : list Z) (med mad : num) :
  median (ints datalist) = Ok med ->
  median_absolute_deviation (ints datalist) = Ok mad ->
  compute_probs datalist
  = Ok (kept datalist med mad,
        map (fun v => PFloat (Qred (inject_Z (list_count datalist v)
                                    / Qred (inject_Z (total datalist med mad)))))
            (kept datalist med mad)).
Proof.
  intros Hmed Hmad. unfold compute_probs.
  rewrite Hmed, Hmad. cbn [bind].
  rewrite compute_probs_loop. cbn [app].
  fold (kept datalist med mad). fold (total datalist med mad).
  destruct (kept datalist med mad) as [|v vs] eqn:Hk.
  - reflexivity.
  - rewrite <- Hk. rewrite comprehension_truediv.
    + cbn [bind num_float num_val]. rewrite map_map. reflexivity.
    + cbn [num_float num_val]. rewrite Qred_correct.
      assert (Hpos : 0 < total datalist med mad).
      { apply total_pos. rewrite Hk. discriminate. }
      intros Hz. unfold Qeq, inject_Z in Hz. cbn [Qnum Qden] in Hz. lia.
Qed.

Lemma compute_probs_statistics (datalist : list Z) :
  datalist <> [] ->
  exists med mad,
    median (ints datalist) = Ok med /\
    median_absolute_deviation (ints datalist) = Ok mad.
Proof.
  intros Hne. apply ints_nonempty in Hne.
  destruct (median_ok _ Hne) as [med Hmed].
  destruct (median_absolute_deviation_ok _ Hne) as [mad Hmad].
  eauto.
Qed.

Lemma kept_In (datalist : list Z) (med mad : num) (v : Z) :
  In v (kept datalist med mad) <-> retained datalist med mad v.
Proof.
  unfold kept. rewrite filter_In, retainedb_spec, list_set_In.
  split; [tauto|]. intros Hr. split; [|exact Hr].
  destruct Hr as [_ [_ Hc]]. unfold list_count in Hc.
  apply (count_occ_In Z.eq_dec). lia.
Qed.

(** C1: on a non-empty length sequence [compute_probs] returns, and a
    value [v] is among the returned values if and only if
    [0 < v <= median + 10 * MAD] and [v] occurs at least 100 times in the
    sequence, the median and the deviation being those the two functions
    give on the sequence.  In particular a positive value with that
    support that equals the bound is returned, and no value one unit
    above the bound is. *)
Theorem compute_probs_values_iff (datalist : list Z) :
  datalist <> [] ->
  exists med mad values probabilities,
    median (ints datalist) = Ok med /\
    median_absolute_deviation (ints datalist) = Ok mad /\
    compute_probs datalist = Ok (values, probabilities) /\
    (forall v,
       In v values <->
       0 < v /\
       (inject_Z v <= num_val med + 10 * num_val mad)%Q /\
       100 <= list_count datalist v) /\
    (forall v,
       inject_Z v == num_val med + 10 * num_val mad ->
       0 < v -> 100 <= list_count datalist v -> In v values) /\
    (forall v,
       inject_Z v == num_val med + 10 * num_val mad + 1 ->
       ~ In v values).
Proof.
  intros Hne.
  destruct (compute_probs_statistics datalist Hne) as [med [mad [Hmed Hmad]]].
  exists med, mad. eexists. eexists.
  split; [exact Hmed|]. split; [exact Hmad|].
  split; [apply (compute_probs_eq datalist med mad Hmed Hmad)|].
  split; [|split].
  - intros v. apply kept_In.
  - intros v Hv Hpos Hc. apply kept_In.
    split; [exact Hpos|]. split; [|exact Hc].
    unfold upper_bound. rewrite Hv. apply Qle_refl.
  - intros v Hv Hin. apply kept_In in Hin.
    destruct Hin as [_ [Hle _]]. unfold upper_bound in Hle.
    rewrite Hv in Hle. lra.
Qed.

(** C4: on a non-empty length sequence [compute_probs] returns, and when
    the returned values are not empty the probabilities add up to 1 in
    exact arithmetic, each one being the occurrence count of its value
    divided by the total of the occurrence counts of the returned
    values. *)
Theorem compute_probs_sum_one (datalist : list Z) :
  datalist <> [] ->
  exists values probabilities,
    compute_probs datalist = Ok (values, probabilities) /\
    (values <> [] ->
     sum_vals probabilities == 1 /\
     Forall2
       (fun v p =>
          num_val p ==
          inject_Z (list_count datalist v)
          / inject_Z (list_sum (map (list_count datalist) values)))
       values probabilities).
Proof.
  intros Hne.
  destruct (compute_probs_statistics datalist Hne) as [med [mad [Hmed Hmad]]].
  eexists. eexists.
  split; [apply (compute_probs_eq datalist med mad Hmed Hmad)|].
  intros Hk. fold (total datalist med mad).
  pose proof (total_pos datalist med mad Hk) as Hpos.
  assert (Hnz : ~ inject_Z (total datalist med mad) == 0).
  { intros Hz. unfold Qeq, inject_Z in Hz. cbn [Qnum Qden] in Hz. lia. }
  split.
  - rewrite (sum_vals_normalised (list_count datalist)).
    fold (total datalist med mad). rewrite Qred_correct.
    field. exact Hnz.
  - clear Hk Hpos Hnz. generalize (total datalist med mad). intros T.
    induction (kept datalist med mad) as [|v vs IH]; constructor.
    + cbn [num_val]. rewrite !Qred_correct. reflexivity.
    + exact IH.
Qed.

(** C5: when the two statistics exist (the sequence is not empty) and no
    value of the sequence is at once positive, within the bound and seen
    100 times, [compute_probs] returns the pair of empty lists: the
    comprehension that divides runs over no element, although its divisor
    is the zero sum, on which a division raises. *)
Theorem compute_probs_none_retained (datalist : list Z) (med mad : num) :
  median (ints datalist) = Ok med ->
  median_absolute_deviation (ints datalist) = Ok mad ->
  (forall v, In v datalist ->
     ~ (0 < v /\
        (inject_Z v <= num_val med + 10 * num_val mad)%Q /\
        100 <= list_count datalist v)) ->
  datalist <> [] /\
  compute_probs datalist = Ok ([], []) /\
  forall n,
    num_truediv (PInt n) (num_float (PInt (list_sum []))) =
    Raise ZeroDivisionError.
Proof.
  intros Hmed Hmad Hnone.
  split; [|split; [|reflexivity]].
  - apply median_nonempty in Hmed. intros ->. apply Hmed. reflexivity.
  - rewrite (compute_probs_eq datalist med mad Hmed Hmad).
    assert (Hk : kept datalist med mad = []).
    { destruct (kept datalist med mad) as [|v vs] eqn:Hk; [reflexivity|].
      exfalso.
      assert (Hin : In v (kept datalist med mad)) by (rewrite Hk; left; auto).
      pose proof Hin as Hr. apply kept_In in Hr.
      unfold kept in Hin. apply filter_In in Hin. destruct Hin as [Hin _].
      apply (proj1 (list_set_In datalist v)) in Hin.
      exact (Hnone v Hin Hr). }
    rewrite Hk. reflexivity.
Qed.

(** C7: on a non-empty length sequence [compute_probs] returns a pair
    whose values are pairwise distinct and whose two lists have the same
    length. *)
Theorem compute_probs_distinct_same_length (datalist : list Z) :
  datalist <> [] ->
  exists values probabilities,
    compute_probs datalist = Ok (values, probabilities) /\
    NoDup values /\
    length values = length probabilities.
Proof.
  intros Hne.
  destruct (compute_probs_statistics datalist Hne) as [med [mad [Hmed Hmad]]].
  eexists. eexists.
  split; [apply (compute_probs_eq datalist med mad Hmed Hmad)|].
  split.
  - apply NoDup_filter, list_set_NoDup.
  - rewrite length_map. reflexivity.
Qed.

(** C10: the median of the empty sequence raises (the index at the
    midpoint is out of range), so [compute_probs] on the empty sequence
    raises too instead of returning the pair of empty lists; whenever
    [compute_probs] returns, its input was not empty. *)
Theorem compute_probs_empty_raises :
  median [] = Raise IndexError /\
  compute_probs [] = Raise IndexError /\
  forall datalist values probabilities,
    compute_probs datalist = Ok (values, probabilities) -> datalist <> [].
Proof.
  split; [reflexivity|]. split; [reflexivity|].
  intros datalist values probabilities Hok ->. discriminate Hok.
Qed.
End DistributionFacts.

Lemma compute_probs_values_iff_witness :
  [7; 7; 9] <> [] /\
  exists med mad values probabilities,
    median (ints [7; 7; 9]) = Ok med /\
    median_absolute_deviation (ints [7; 7; 9]) = Ok mad /\
    compute_probs [7; 7; 9] = Ok (values, probabilities) /\
    (forall v,
       In v values <->
       0 < v /\
       (inject_Z v <= num_val med + 10 * num_val mad)%Q /\
       100 <= list_count [7; 7; 9] v) /\
    (forall v,
       inject_Z v == num_val med + 10 * num_val mad ->
       0 < v -> 100 <= list_count [7; 7; 9] v -> In v values) /\
    (forall v,
       inject_Z v == num_val med + 10 * num_val mad + 1 ->
       ~ In v values).
Proof.
  split; [discriminate|].
  apply (compute_probs_values_iff [7; 7; 9]). discriminate.
Defined.

(** The boundary, on a sequence of 300 fives and 100 sixes: the median is
    5.0 and the deviation 0.0, so the bound is 5.0; 5 is returned and 6, which is
    seen 100 times, is not. *)
Example compute_probs_boundary :
  median (ints (repeat 5 300 ++ repeat 6 100)) = Ok (PFloat 5) /\
  median_absolute_deviation (ints (repeat 5 300 ++ repeat 6 100))
  = Ok (PFloat 0) /\
  list_count (repeat 5 300 ++ repeat 6 100) 6 = 100 /\
  compute_probs (repeat 5 300 ++ repeat 6 100) = Ok ([5], [PFloat 1]).
Proof. repeat split; vm_compute; reflexivity. Qed.

Lemma compute_probs_sum_one_witness :
  repeat 300 150 <> [] /\
  exists values probabilities,
    compute_probs (repeat 300 150) = Ok (values, probabilities) /\
    (values <> [] ->
     sum_vals probabilities == 1 /\
     Forall2
       (fun v p =>
          num_val p ==
          inject_Z (list_count (repeat 300 150) v)
          / inject_Z (list_sum (map (list_count (repeat 300 150)) values)))
       values probabilities).
Proof.
  split; [discriminate|].
  apply (compute_probs_sum_one (repeat 300 150)). discriminate.
Defined.

Lemma compute_probs_none_retained_witness :
  median (ints [300; 301]) = Ok (PFloat (601 # 2)) /\
  median_absolute_deviation (ints [300; 301]) = Ok (PFloat (1 # 2)) /\
  compute_probs [300; 301] = Ok ([], []).
Proof.
  split; [reflexivity|]. split; [reflexivity|].
  refine (proj1 (proj2 (compute_probs_none_retained [300; 301]
                          (PFloat (601 # 2)) (PFloat (1 # 2))
                          eq_refl eq_refl _))).
  intros v [<-|[<-|[]]] [_ [_ Hc]]; vm_compute in Hc; apply Hc; reflexivity.
Defined.

Lemma compute_probs_distinct_same_length_witness :
  [7; 7; 9] <> [] /\
  exists values probabilities,
    compute_probs [7; 7; 9] = Ok (values, probabilities) /\
    NoDup values /\
    length values = length probabilities.
Proof.
  split; [discriminate|].
  apply (compute_probs_distinct_same_length [7; 7; 9]). discriminate.
Defined.

Lemma compute_probs_empty_raises_witness :
  compute_probs [300] = Ok ([], []) /\ [300] <> [].
Proof.
  split; [reflexivity|].
  exact (proj2 (proj2 compute_probs_empty_raises) [300] [] [] eq_refl).
Defined.

(** ** The pipeline *)

Section PipelineFacts.
Context {E : SetEnum}.

(** [compute_probs] raises on the empty sequence only, and then it is
    the [IndexError] of [median]. *)
Lemma compute_probs_raise (datalist : list Z) (e : exn) :
  compute_probs datalist = Raise e -> datalist = [] /\ e = IndexError.
Proof.
  intros Hr. destruct datalist as [|x l].
  - split; [reflexivity|]. vm_compute in Hr. congruence.
  - assert (Hne : x :: l <> []) by discriminate.
    destruct (compute_probs_statistics _ Hne) as [med [mad [Hmed Hmad]]].
    rewrite (compute_probs_eq _ med mad Hmed Hmad) in Hr. discriminate.
Qed.

(** The pipeline on a file that opens. *)
Lemma main_opened (pysam : reader) (input_file output_prefix : string)
    (records : list AlignedSegment) :
  pysam input_file = Opened records ->
  exists all_tlens,
    count_frags pysam input_file = ([EvClose input_file], Ok all_tlens) /\
    main pysam input_file output_prefix =
    match compute_probs all_tlens with
    | Ok (out_vals, out_probs) =>
        ([EvClose input_file;
          EvPrint (newline ++ "Saving model...");
          EvDump (output_prefix ++ ".p") out_vals out_probs;
          EvPrint (newline ++ "Model successfully saved.")], Ok tt)
    | Raise e =>
        ([EvClose input_file; EvPrint (newline ++ "Saving model...")],
         Raise e)
    end.
Proof.
  intros Hopen.
  exists (sorted Z.ltb (fold_left count_frags_step records [])).
  assert (Hc : count_frags pysam input_file
               = ([EvClose input_file],
                  Ok (sorted Z.ltb (fold_left count_frags_step records [])))).
  { unfold count_frags. rewrite Hopen. reflexivity. }
  split; [exact Hc|].
  unfold main. rewrite Hc. cbn [io_bind io_emit io_lift app].
  destruct (compute_probs _) as [[out_vals out_probs]|e]; reflexivity.
Qed.

(** C9, as the code has it: when opening the file raises [ValueError]
    (the format is not recognised), [count_frags] prints the cause and
    raises [SystemExit(1)] without anything else happening, so the
    pipeline ends there with exit status 1; and, for a reader that does
    not itself raise [SystemExit], this is the only way the pipeline ends
    by an exit. *)
Theorem unrecognized_format_exits
    (pysam : reader) (input_file output_prefix : string) :
  (forall code, pysam input_file <> OpenRaised (SystemExit code)) ->
  (pysam input_file = OpenRaised ValueError ->
   count_frags pysam input_file
   = ([EvPrint "File type not recognized by pysam."], Raise (SystemExit 1)) /\
   main pysam input_file output_prefix
   = ([EvPrint "File type not recognized by pysam."], Raise (SystemExit 1)) /\
   exit_status (snd (main pysam input_file output_prefix)) = 1) /\
  (forall code,
     snd (main pysam input_file output_prefix) = Raise (SystemExit code) ->
     pysam input_file = OpenRaised ValueError /\ code = 1).
Proof.
  intros Hreader. split.
  - intros Hopen. unfold main, count_frags. rewrite Hopen.
    repeat split.
  - intros code Hexit.
    destruct (pysam input_file) as [records|e|yielded e] eqn:Hopen.
    + destruct (main_opened pysam input_file output_prefix records Hopen)
        as [all_tlens [_ Hmain]].
      rewrite Hmain in Hexit.
      destruct (compute_probs all_tlens) as [[out_vals out_probs]|e] eqn:Hp.
      * discriminate Hexit.
      * apply compute_probs_raise in Hp. destruct Hp as [_ ->].
        discriminate Hexit.
    + unfold main, count_frags in Hexit. rewrite Hopen in Hexit.
      destruct e; cbn in Hexit; try discriminate Hexit.
      * split; [reflexivity|]. congruence.
      * exfalso. apply (Hreader code0). reflexivity.
    + unfold main, count_frags in Hexit. rewrite Hopen in Hexit.
      destruct e; cbn in Hexit; discriminate Hexit.
Qed.
End PipelineFacts.

Lemma unrecognized_format_exits_witness :
  (forall code, unrecognized_reader "notes.txt"%string
                <> OpenRaised (SystemExit code)) /\
  main unrecognized_reader "notes.txt" "model"
  = ([EvPrint "File type not recognized by pysam."], Raise (SystemExit 1)).
Proof.
  assert (Hreader : forall code, unrecognized_reader "notes.txt"%string
                                 <> OpenRaised (SystemExit code))
    by (intros code; discriminate).
  split; [exact Hreader|].
  exact (proj1 (proj2 (proj1 (unrecognized_format_exits unrecognized_reader
                                "notes.txt" "model" Hreader) eq_refl))).
Defined.

(** C9 as stated fails: a file that is recognised but holds no record makes
    the pipeline end by an uncaught [IndexError], after the file is closed
    and the first progress message is printed; the process ends with
    status 1 although the format was not the cause. *)
Lemma pipeline_fails_on_recognised_file :
  empty_reader "empty.bam"%string <> OpenRaised ValueError /\
  main empty_reader "empty.bam" "model"
  = ([EvClose "empty.bam"; EvPrint (newline ++ "Saving model...")],
     Raise IndexError) /\
  failed (main empty_reader "empty.bam" "model") /\
  exit_status (snd (main empty_reader "empty.bam" "model")) = 1.
Proof.
  split; [discriminate|]. split; [reflexivity|].
  split; [exists IndexError|]; reflexivity.
Qed.

(** The same happens when the file holds records none of which counts. *)
Example pipeline_fails_without_qualifying_record :
  main (fun _ => Opened [segment 147 60 (RefId 0) (RefId 0) 300])
       "second_reads.bam" "model"
  = ([EvClose "second_reads.bam"; EvPrint (newline ++ "Saving model...")],
     Raise IndexError).
Proof. reflexivity. Qed.

Example pipeline_saves_empty_model :
  main sample_reader "sample.bam" "model"
  = ([EvClose "sample.bam";
      EvPrint (newline ++ "Saving model...");
      EvDump "model.p" [] [];
      EvPrint (newline ++ "Model successfully saved.")], Ok tt).
Proof. reflexivity. Qed.

(** * Further properties of the code *)

(** ** The statistics stay within the data *)

(** A median lies in every interval that holds the whole sequence. *)
Lemma median_in_range (S : list num) (m : num) (lo hi : Q) :
  (forall y, In y S -> lo <= num_val y /\ num_val y <= hi)%Q ->
  median S = Ok m ->
  (lo <= num_val m /\ num_val m <= hi)%Q.
Proof.
  intros Hall Hm.
  pose proof (median_nonempty S m Hm) as Hne.
  destruct (Nat.odd (length S)) eqn:Hodd.
  - destruct (median_odd S Hodd) as [y [Hy Hmy]].
    rewrite Hm in Hmy. injection Hmy as ->.
    apply Hall, (nth_error_In _ _ Hy).
  - assert (Heven : Nat.even (length S) = true).
    { rewrite <- Nat.negb_odd, Hodd. reflexivity. }
    destruct (median_even S Hne Heven) as [a [b [q [Ha [Hb [Hmq Hq]]]]]].
    rewrite Hm in Hmq. injection Hmq as ->.
    apply nth_error_In, Hall in Ha. apply nth_error_In, Hall in Hb.
    cbn [num_val]. rewrite Hq. split.
    + apply Qle_shift_div_l; [reflexivity|]. lra.
    + apply Qle_shift_div_r; [reflexivity|]. lra.
Qed.

Lemma in_min_max_val (x : num) (l : list num) (y : num) :
  In y (x :: l) ->
  (num_val (list_min x l) <= num_val y /\ num_val y <= num_val (list_max x l))%Q.
Proof. intros Hy. apply in_min_max in Hy. exact Hy. Qed.

(** X1: the deviation of a non-empty sequence [x :: l] exists, is not
    negative and is at most the spread [max - min] of the sequence. *)
Theorem median_absolute_deviation_bounds (x : num) (l : list num) :
  exists r,
    median_absolute_deviation (x :: l) = Ok r /\
    (0 <= num_val r)%Q /\
    (num_val r <= num_val (list_max x l) - num_val (list_min x l))%Q.
Proof.
  assert (Hne : x :: l <> []) by discriminate.
  destruct (median_absolute_deviation_ok _ Hne) as [r Hr].
  exists r. split; [exact Hr|].
  destruct (median_ok _ Hne) as [m Hm].
  pose proof (median_in_range _ m _ _ (in_min_max_val x l) Hm) as [Hlo Hhi].
  unfold median_absolute_deviation in Hr. rewrite Hm in Hr. cbn [bind] in Hr.
  refine (median_in_range _ r _ _ _ Hr).
  intros d Hd.
  apply (Permutation_in _ (sorted_perm num_ltb _)) in Hd.
  apply in_map_iff in Hd. destruct Hd as [y [<- Hy]].
  apply in_min_max_val in Hy. destruct Hy as [Hy1 Hy2].
  rewrite num_val_abs, num_val_sub.
  split; [apply Qabs_nonneg|].
  apply Qabs_case; intros _; lra.
Qed.

(** ** The median of a sorted sequence splits it *)

Lemma num_le_trans : Relations_1.Transitive num_le.
Proof. intros a b c Hab Hbc. unfold num_le in *. eapply Qle_trans; eauto. Qed.

Lemma StronglySorted_nth (S : list num) :
  StronglySorted num_le S ->
  forall i j a b,
    (i <= j)%nat -> nth_error S i = Some a -> nth_error S j = Some b ->
    num_le a b.
Proof.
  induction 1 as [|y S HS IH Hall]; intros i j a b Hij Ha Hb.
  - destruct i; discriminate.
  - destruct i as [|i], j as [|j]; simpl in Ha, Hb.
    + injection Ha as <-. injection Hb as <-. apply Qle_refl.
    + injection Ha as <-. apply nth_error_In in Hb.
      rewrite Forall_forall in Hall. apply Hall, Hb.
    + lia.
    + apply (IH i j); [lia | assumption | assumption].
Qed.

(** X2: on a non-empty sequence in ascending order the median splits the
    sequence: every element before index [length/2] is at most the median
    and every element from that index on is at least the median. *)
Theorem median_splits_sorted (S : list num) (m : num) :
  Sorted num_le S ->
  median S = Ok m ->
  forall i y,
    nth_error S i = Some y ->
    ((i < length S / 2)%nat -> (num_val y <= num_val m)%Q) /\
    ((length S / 2 <= i)%nat -> (num_val m <= num_val y)%Q).
Proof.
  intros Hs Hm i y Hy.
  apply (Sorted_StronglySorted num_le_trans) in Hs.
  pose proof (StronglySorted_nth S Hs) as Hnth. unfold num_le in Hnth.
  pose proof (median_nonempty S m Hm) as Hne.
  destruct (Nat.odd (length S)) eqn:Hodd.
  - destruct (median_odd S Hodd) as [c [Hc Hmc]].
    rewrite Hm in Hmc. injection Hmc as ->.
    split; intros Hi.
    + apply (Hnth i (length S / 2)%nat); [lia | assumption | assumption].
    + apply (Hnth (length S / 2)%nat i); assumption.
  - assert (Heven : Nat.even (length S) = true).
    { rewrite <- Nat.negb_odd, Hodd. reflexivity. }
    destruct (median_even S Hne Heven) as [a [b [q [Ha [Hb [Hmq Hq]]]]]].
    rewrite Hm in Hmq. injection Hmq as ->. cbn [num_val]. rewrite Hq.
    assert (Hba : (num_val b <= num_val a)%Q).
    { apply (Hnth (length S / 2 - 1)%nat (length S / 2)%nat);
        [lia | assumption | assumption]. }
    split; intros Hi.
    + assert (Hyb : (num_val y <= num_val b)%Q).
      { apply (Hnth i (length S / 2 - 1)%nat); [lia | assumption | assumption]. }
      apply Qle_shift_div_l; [reflexivity|]. lra.
    + assert (Hay : (num_val a <= num_val y)%Q).
      { apply (Hnth (length S / 2)%nat i); assumption. }
      apply Qle_shift_div_r; [reflexivity|]. lra.
Qed.

Lemma median_splits_sorted_witness :
  Sorted num_le (ints sample10) /\
  median (ints sample10) = Ok (PFloat 10) /\
  (num_val (PInt 8) <= num_val (PFloat 10))%Q /\
  (num_val (PFloat 10) <= num_val (PInt 12))%Q.
Proof.
  assert (Hs : Sorted num_le (ints sample10)).
  { repeat constructor; unfold num_le; cbn; discriminate. }
  split; [exact Hs|]. split; [reflexivity|].
  split.
  - exact (proj1 (median_splits_sorted (ints sample10) (PFloat 10) Hs eq_refl
                    4%nat (PInt 8) eq_refl) ltac:(cbn; lia)).
  - exact (proj2 (median_splits_sorted (ints sample10) (PFloat 10) Hs eq_refl
                    5%nat (PInt 12) eq_refl) ltac:(cbn; lia)).
Defined.

(** ** More on the record filter *)

Lemma StronglySorted_perm_eq (l1 l2 : list Z) :
  StronglySorted Z.le l1 -> StronglySorted Z.le l2 ->
  Permutation l1 l2 -> l1 = l2.
Proof.
  intros H1. revert l2.
  induction H1 as [|a l1 Hs1 IH Ha]; intros l2 H2 Hp.
  - apply Permutation_nil in Hp. congruence.
  - destruct H2 as [|b l2 Hs2 Hb].
    + apply Permutation_sym, Permutation_nil in Hp. discriminate.
    + assert (Hab : a = b).
      { rewrite Forall_forall in Ha, Hb.
        assert (Hina : In a (b :: l2))
          by (apply (Permutation_in _ Hp); left; reflexivity).
        assert (Hinb : In b (a :: l1))
          by (apply (Permutation_in _ (Permutation_sym Hp)); left; reflexivity).
        destruct Hina as [->|Hina]; [reflexivity|].
        destruct Hinb as [->|Hinb]; [reflexivity|].
        apply Hb in Hina. apply Ha in Hinb. lia. }
      subst b. f_equal. apply IH; [exact Hs2|].
      apply (Permutation_cons_inv Hp).
Qed.

Lemma sorted_Z_perm (l1 l2 : list Z) :
  Permutation l1 l2 -> sorted Z.ltb l1 = sorted Z.ltb l2.
Proof.
  intros Hp. apply StronglySorted_perm_eq.
  - apply Sorted_StronglySorted; [intros a b c; apply Z.le_trans|].
    apply sorted_Z_Sorted.
  - apply Sorted_StronglySorted; [intros a b c; apply Z.le_trans|].
    apply sorted_Z_Sorted.
  - eapply perm_trans; [apply sorted_perm|].
    eapply perm_trans; [exact Hp|]. apply Permutation_sym, sorted_perm.
Qed.

Lemma filter_perm {A : Type} (f : A -> bool) (l1 l2 : list A) :
  Permutation l1 l2 -> Permutation (filter f l1) (filter f l2).
Proof.
  induction 1 as [|x l1 l2 Hp IH|x y l|l1 l2 l3 H12 IH12 H23 IH23]; simpl.
  - apply perm_nil.
  - destruct (f x); [apply perm_skip|]; exact IH.
  - destruct (f x), (f y); try apply Permutation_refl. apply perm_swap.
  - eapply perm_trans; eassumption.
Qed.

(** X3: what [count_frags] returns does not depend on the order in which
    the file yields its records. *)
Theorem count_frags_record_order
    (pysam pysam' : reader) (file : string)
    (records records' : list AlignedSegment) :
  pysam file = Opened records ->
  pysam' file = Opened records' ->
  Permutation records records' ->
  count_frags pysam file = count_frags pysam' file.
Proof.
  intros Ho Ho' Hp. unfold count_frags. rewrite Ho, Ho'.
  cbn [io_bind io_ret io_emit app].
  rewrite !count_frags_loop. cbn [app].
  rewrite (sorted_Z_perm _ _ (Permutation_map _ (filter_perm qualifying _ _ Hp))).
  reflexivity.
Qed.

Lemma count_frags_record_order_witness :
  Permutation sample_records (rev sample_records) /\
  count_frags sample_reader "sample.bam"
  = count_frags (fun _ => Opened (rev sample_records)) "sample.bam".
Proof.
  assert (Hp : Permutation sample_records (rev sample_records))
    by apply Permutation_rev.
  split; [exact Hp|].
  exact (count_frags_record_order sample_reader
           (fun _ => Opened (rev sample_records)) "sample.bam"
           sample_records (rev sample_records) eq_refl eq_refl Hp).
Defined.

(** X4: on a file that opens, the lengths [count_frags] returns are never
    negative, there is one per qualifying record, so at most one per
    record, and a record with a negative template length counts like the
    one with the opposite length. *)
Theorem count_frags_lengths
    (pysam : reader) (file : string) (records : list AlignedSegment) :
  pysam file = Opened records ->
  exists count_list,
    snd (count_frags pysam file) = Ok count_list /\
    Forall (fun t => 0 <= t) count_list /\
    length count_list = length (filter qualifying records) /\
    (length count_list <= length records)%nat /\
    forall t, In t count_list <->
              exists r, In r records /\ qualifying r = true /\
                        (template_length r = t \/ template_length r = - t) /\
                        0 <= t.
Proof.
  intros Hopen.
  exists (sorted Z.ltb (fold_left count_frags_step records [])).
  assert (Hp : Permutation (sorted Z.ltb (fold_left count_frags_step records []))
                 (map (fun r => Z.abs (template_length r))
                      (filter qualifying records))).
  { rewrite count_frags_loop. apply sorted_perm. }
  split; [unfold count_frags; rewrite Hopen; reflexivity|].
  split; [|split; [|split]].
  - apply Forall_forall. intros t Ht.
    apply (Permutation_in _ Hp), in_map_iff in Ht.
    destruct Ht as [r [<- _]]. apply Z.abs_nonneg.
  - rewrite (Permutation_length Hp), length_map. reflexivity.
  - rewrite (Permutation_length Hp), length_map. apply filter_length_le.
  - intros t. split.
    + intros Ht. apply (Permutation_in _ Hp), in_map_iff in Ht.
      destruct Ht as [r [<- Hr]]. apply filter_In in Hr.
      exists r. repeat split; try tauto; lia.
    + intros [r [Hr [Hq [Ht Hpos]]]].
      apply (Permutation_in _ (Permutation_sym Hp)), in_map_iff.
      exists r. split; [lia|]. apply filter_In. tauto.
Qed.

Lemma count_frags_lengths_witness :
  sample_reader "sample.bam"%string = Opened sample_records /\
  exists count_list,
    snd (count_frags sample_reader "sample.bam") = Ok count_list /\
    Forall (fun t => 0 <= t) count_list /\
    length count_list = 2%nat.
Proof.
  split; [reflexivity|].
  destruct (count_frags_lengths sample_reader "sample.bam" sample_records
              eq_refl) as [count_list [Hc [Hpos [Hlen _]]]].
  exists count_list. split; [exact Hc|]. split; [exact Hpos | exact Hlen].
Defined.

(** X5: [count_frags] closes the file, as the only thing it does, exactly
    when the file opened and the iteration reached its end, and it returns
    a list exactly then.  When opening raises anything but [ValueError]
    the exception goes through unchanged.  When the file opened and the
    iteration raises, after any number of records, the exception goes
    through as well, [ValueError] included: nothing is printed, the
    process is not exited by the function and the file is not closed. *)
Theorem count_frags_effects (pysam : reader) (file : string) :
  ((exists records, pysam file = Opened records) <->
   fst (count_frags pysam file) = [EvClose file]) /\
  ((exists records, pysam file = Opened records) <->
   exists count_list, snd (count_frags pysam file) = Ok count_list) /\
  (forall e, pysam file = OpenRaised e -> e <> ValueError ->
             count_frags pysam file = ([], Raise e)) /\
  (forall yielded e, pysam file = FetchRaised yielded e ->
                     count_frags pysam file
                     = ([], Raise (exn_of_fetch_error e))) /\
  (forall yielded, pysam file = FetchRaised yielded NoIndex ->
                   count_frags pysam file = ([], Raise ValueError)).
Proof.
  unfold count_frags.
  destruct (pysam file) as [records|e|yielded e] eqn:Hopen.
  - cbn [io_bind io_ret io_emit app fst snd].
    repeat split; intros; eauto; discriminate.
  - repeat split.
    + intros [records Hr]. discriminate Hr.
    + intros Ht. destruct e; cbn in Ht; discriminate Ht.
    + intros [records Hr]. discriminate Hr.
    + intros [count_list Hc]. destruct e; cbn in Hc; discriminate Hc.
    + intros e' He' Hne. injection He' as <-.
      destruct e; try reflexivity. congruence.
    + intros yielded e' He'. discriminate He'.
    + intros yielded He'. discriminate He'.
  - cbn [io_bind io_ret io_lift app fst snd].
    repeat split.
    + intros [records Hr]. discriminate Hr.
    + intros Ht. discriminate Ht.
    + intros [records Hr]. discriminate Hr.
    + intros [count_list Hc]. discriminate Hc.
    + intros e' He'. discriminate He'.
    + intros yielded' e' He'. injection He' as _ <-. reflexivity.
    + intros yielded' He'. injection He' as _ ->. reflexivity.
Qed.

Lemma count_frags_effects_witness :
  count_frags (fun _ => OpenRaised OSError) "missing.bam" = ([], Raise OSError)
  /\ count_frags unindexed_reader "unindexed.bam" = ([], Raise ValueError)
  /\ count_frags truncated_reader "truncated.bam" = ([], Raise OSError).
Proof.
  split; [|split].
  - refine (proj1 (proj2 (proj2 (count_frags_effects
                                   (fun _ => OpenRaised OSError)
                                   "missing.bam"))) OSError eq_refl _).
    discriminate.
  - exact (proj2 (proj2 (proj2 (proj2 (count_frags_effects unindexed_reader
                                         "unindexed.bam")))) [] eq_refl).
  - exact (proj1 (proj2 (proj2 (proj2 (count_frags_effects truncated_reader
                                         "truncated.bam"))))
             (firstn 2 sample_records) ReadError eq_refl).
Defined.

(** ** More on the distribution builder *)

Lemma list_sum_member (f : Z -> Z) (l : list Z) (v : Z) :
  (forall u, In u l -> 0 <= f u) -> In v l -> f v <= list_sum (map f l).
Proof.
  induction l as [|a l IH]; intros Hpos Hin; [destruct Hin|].
  cbn [map]. rewrite list_sum_cons.
  assert (Hrest : 0 <= list_sum (map f l)).
  { clear IH Hin. induction l as [|b l IHl]; [reflexivity|].
    cbn [map]. rewrite list_sum_cons.
    assert (0 <= f b) by (apply Hpos; right; left; reflexivity).
    assert (0 <= list_sum (map f l)).
    { apply IHl. intros u [->|Hu]; apply Hpos; [left|right; right]; auto. }
    lia. }
  destruct Hin as [->|Hin].
  - lia.
  - assert (0 <= f a) by (apply Hpos; left; reflexivity).
    assert (f v <= list_sum (map f l)).
    { apply IH; [|exact Hin]. intros u Hu. apply Hpos. right. exact Hu. }
    lia.
Qed.

Lemma count_split (d : list Z) (a : Z) :
  list_count d a + Z.of_nat (length (filter (fun y => negb (y =? a)) d))
  = Z.of_nat (length d).
Proof.
  unfold list_count. induction d as [|x d IH]; [reflexivity|].
  cbn [count_occ filter length].
  destruct (Z.eq_dec x a) as [->|Hxa].
  - rewrite Z.eqb_refl. cbn [negb]. lia.
  - apply Z.eqb_neq in Hxa. rewrite Hxa. cbn [negb length]. lia.
Qed.

Lemma count_without (d : list Z) (a v : Z) :
  v <> a ->
  list_count (filter (fun y => negb (y =? a)) d) v = list_count d v.
Proof.
  intros Hva. unfold list_count. f_equal.
  induction d as [|x d IH]; [reflexivity|].
  cbn [filter count_occ].
  destruct (Z.eqb_spec x a) as [->|Hxa]; cbn [negb count_occ].
  - destruct (Z.eq_dec a v); [congruence | exact IH].
  - destruct (Z.eq_dec x v); rewrite IH; reflexivity.
Qed.

Lemma counts_of_distinct (l : list Z) :
  NoDup l ->
  forall d, list_sum (map (list_count d) l) <= Z.of_nat (length d).
Proof.
  induction 1 as [|a l Ha Hl IH]; intros d.
  - unfold list_sum. simpl. lia.
  - cbn [map]. rewrite list_sum_cons.
    assert (Heq : map (list_count d) l
                  = map (list_count (filter (fun y => negb (y =? a)) d)) l).
    { apply map_ext_in. intros v Hv. symmetry. apply count_without.
      intros ->. contradiction. }
    rewrite Heq.
    pose proof (IH (filter (fun y => negb (y =? a)) d)).
    pose proof (count_split d a). lia.
Qed.

Section DistributionMore.
Context {E : SetEnum}.

(** What a returned pair is made of. *)
Lemma compute_probs_inv (datalist values : list Z) (probabilities : list num) :
  compute_probs datalist = Ok (values, probabilities) ->
  exists med mad,
    median (ints datalist) = Ok med /\
    median_absolute_deviation (ints datalist) = Ok mad /\
    values = kept datalist med mad /\
    probabilities
    = map (fun v => PFloat (Qred (inject_Z (list_count datalist v)
                                  / Qred (inject_Z (total datalist med mad)))))
          (kept datalist med mad).
Proof.
  intros Hok.
  assert (Hne : datalist <> []) by (intros ->; discriminate Hok).
  destruct (compute_probs_statistics datalist Hne) as [med [mad [Hmed Hmad]]].
  exists med, mad. rewrite (compute_probs_eq _ med mad Hmed Hmad) in Hok.
  injection Hok as <- <-. repeat split; assumption.
Qed.

(** X6: every probability [compute_probs] returns is a float above 0 and
    at most 1. *)
Theorem compute_probs_probabilities_range
    (datalist values : list Z) (probabilities : list num) :
  compute_probs datalist = Ok (values, probabilities) ->
  Forall (fun p => exists q, p = PFloat q /\ (0 < q)%Q /\ (q <= 1)%Q)
         probabilities.
Proof.
  intros Hok.
  destruct (compute_probs_inv _ _ _ Hok) as [med [mad [_ [_ [_ ->]]]]].
  apply Forall_map, Forall_forall. intros v Hv.
  eexists. split; [reflexivity|].
  assert (Hc : 100 <= list_count datalist v).
  { apply kept_In in Hv. apply Hv. }
  assert (HT : list_count datalist v <= total datalist med mad).
  { unfold total. apply (list_sum_member (list_count datalist)); [|exact Hv].
    intros u _. unfold list_count. lia. }
  rewrite !Qred_correct.
  assert (HTq : (0 < inject_Z (total datalist med mad))%Q).
  { change 0%Q with (inject_Z 0). rewrite <- Zlt_Qlt. lia. }
  split.
  - apply Qlt_shift_div_l; [exact HTq|]. rewrite Qmult_0_l.
    change 0%Q with (inject_Z 0). rewrite <- Zlt_Qlt. lia.
  - apply Qle_shift_div_r; [exact HTq|]. rewrite Qmult_1_l.
    rewrite <- Zle_Qle. exact HT.
Qed.

(** X7: the returned values stand for at most all the observations: with
    a support of 100 each, there are at most [len(datalist) / 100] of
    them. *)
Theorem compute_probs_values_count
    (datalist values : list Z) (probabilities : list num) :
  compute_probs datalist = Ok (values, probabilities) ->
  100 * Z.of_nat (length values) <= Z.of_nat (length datalist).
Proof.
  intros Hok.
  destruct (compute_probs_inv _ _ _ Hok) as [med [mad [_ [_ [-> _]]]]].
  assert (Hsum : list_sum (map (list_count datalist) (kept datalist med mad))
                 <= Z.of_nat (length datalist)).
  { apply counts_of_distinct. apply NoDup_filter, list_set_NoDup. }
  pose proof (kept_counts datalist med mad) as Hall.
  clear Hok. revert Hsum Hall. generalize (Z.of_nat (length datalist)).
  induction (kept datalist med mad) as [|v vs IH]; intros n Hsum Hall.
  - unfold list_sum in Hsum. simpl in *. lia.
  - cbn [map] in Hsum, Hall. rewrite list_sum_cons in Hsum.
    inversion Hall as [|? ? Hv Hvs]; subst.
    specialize (IH (n - list_count datalist v) ltac:(lia) Hvs).
    cbn [length]. lia.
Qed.
End DistributionMore.

Lemma compute_probs_probabilities_range_witness :
  compute_probs (repeat 300 150) = Ok ([300], [PFloat 1]) /\
  Forall (fun p => exists q, p = PFloat q /\ (0 < q)%Q /\ (q <= 1)%Q)
         [PFloat 1].
Proof.
  assert (Hok : compute_probs (repeat 300 150) = Ok ([300], [PFloat 1]))
    by (vm_compute; reflexivity).
  split; [exact Hok|].
  exact (compute_probs_probabilities_range _ _ _ Hok).
Defined.

Lemma compute_probs_values_count_witness :
  compute_probs (repeat 300 150) = Ok ([300], [PFloat 1]) /\
  100 * 1 <= 150.
Proof.
  assert (Hok : compute_probs (repeat 300 150) = Ok ([300], [PFloat 1]))
    by (vm_compute; reflexivity).
  split; [exact Hok|].
  exact (compute_probs_values_count _ _ _ Hok).
Defined.

Lemma list_sum_perm (l1 l2 : list Z) :
  Permutation l1 l2 -> list_sum l1 = list_sum l2.
Proof.
  induction 1 as [|x l1 l2 Hp IH|x y l|l1 l2 l3 H12 IH12 H23 IH23].
  - reflexivity.
  - rewrite !list_sum_cons, IH. reflexivity.
  - rewrite !list_sum_cons. lia.
  - congruence.
Qed.

Lemma combine_map {A B : Type} (f : A -> B) (l : list A) :
  combine l (map f l) = map (fun v => (v, f v)) l.
Proof. induction l as [|a l IH]; simpl; [|rewrite IH]; reflexivity. Qed.

(** X8: the order in which the set of the lengths is enumerated only
    permutes the result: two enumerations give the same values with the
    same probabilities, pair by pair. *)
Theorem compute_probs_enumeration_order
    (E1 E2 : SetEnum) (datalist values1 values2 : list Z)
    (probabilities1 probabilities2 : list num) :
  @compute_probs E1 datalist = Ok (values1, probabilities1) ->
  @compute_probs E2 datalist = Ok (values2, probabilities2) ->
  Permutation (combine values1 probabilities1)
              (combine values2 probabilities2).
Proof.
  intros H1 H2.
  destruct (@compute_probs_inv E1 _ _ _ H1)
    as [med [mad [Hmed [Hmad [-> ->]]]]].
  destruct (@compute_probs_inv E2 _ _ _ H2)
    as [med' [mad' [Hmed' [Hmad' [-> ->]]]]].
  rewrite Hmed in Hmed'. injection Hmed' as <-.
  rewrite Hmad in Hmad'. injection Hmad' as <-.
  assert (Hp : Permutation (@kept E1 datalist med mad)
                           (@kept E2 datalist med mad)).
  { apply NoDup_Permutation.
    - apply NoDup_filter, list_set_NoDup.
    - apply NoDup_filter, list_set_NoDup.
    - intros v. rewrite !kept_In. reflexivity. }
  assert (HT : @total E1 datalist med mad = @total E2 datalist med mad).
  { unfold total. apply list_sum_perm, Permutation_map, Hp. }
  rewrite HT, !combine_map. apply Permutation_map, Hp.
Qed.

Lemma compute_probs_enumeration_order_witness :
  Permutation
    (combine [5; 4] [PFloat (3 # 4); PFloat (1 # 4)])
    (combine [4; 5] [PFloat (1 # 4); PFloat (3 # 4)]).
Proof.
  refine (compute_probs_enumeration_order nodup_enum rev_nodup_enum
            (repeat 5 300 ++ repeat 6 100 ++ repeat 4 100) _ _ _ _ _ _);
    vm_compute; reflexivity.
Defined.

Lemma singleton_list (l : list Z) (a : Z) :
  NoDup l -> (forall x, In x l <-> x = a) -> l = [a].
Proof.
  intros Hnd Hin. destruct l as [|b l].
  - exfalso. apply (proj2 (Hin a) eq_refl).
  - assert (b = a) by (apply Hin; left; reflexivity). subst b.
    destruct l as [|c l]; [reflexivity|].
    assert (c = a) by (apply Hin; right; left; reflexivity). subst c.
    inversion Hnd as [|? ? Hna _]; subst. exfalso. apply Hna. left. reflexivity.
Qed.

Section DistributionScenario.
Context {E : SetEnum}.

(** One length seen [n] times: the median is that length, the deviation
    is zero, the set has one element and its count is the whole. *)
Lemma compute_probs_repeat (L : Z) (n : nat) :
  0 < L -> (100 <= n)%nat ->
  compute_probs (repeat L n) = Ok ([L], [PFloat 1]).
Proof.
  intros HL Hn.
  assert (Hne : repeat L n <> []) by (destruct n; [lia | discriminate]).
  destruct (compute_probs_statistics _ Hne) as [med [mad [Hmed Hmad]]].
  rewrite (compute_probs_eq _ med mad Hmed Hmad).
  assert (Hall : forall y, In y (ints (repeat L n)) -> y = PInt L).
  { intros y Hy. apply in_map_iff in Hy. destruct Hy as [x [<- Hx]].
    apply repeat_spec in Hx. congruence. }
  assert (Hm : num_val med == inject_Z L).
  { assert (Hin : forall y, In y (ints (repeat L n)) ->
                    (inject_Z L <= num_val y /\ num_val y <= inject_Z L)%Q).
    { intros y Hy. rewrite (Hall y Hy). cbn [num_val]. split; apply Qle_refl. }
    destruct (median_in_range _ med _ _ Hin Hmed) as [H1 H2].
    apply Qle_antisym; assumption. }
  assert (Hd : num_val mad == 0).
  { unfold median_absolute_deviation in Hmad. rewrite Hmed in Hmad.
    cbn [bind] in Hmad.
    assert (Hdev : forall d,
               In d (sorted num_ltb
                       (map (fun item => num_abs (num_sub item med))
                            (ints (repeat L n)))) ->
               (0 <= num_val d /\ num_val d <= 0)%Q).
    { intros d Hin. apply (Permutation_in _ (sorted_perm num_ltb _)) in Hin.
      apply in_map_iff in Hin. destruct Hin as [y [<- Hy]].
      rewrite (Hall y Hy), num_val_abs, num_val_sub, Hm. cbn [num_val].
      setoid_replace (inject_Z L - inject_Z L)%Q with 0%Q by ring.
      split; discriminate. }
    destruct (median_in_range _ mad _ _ Hdev Hmad) as [H1 H2].
    apply Qle_antisym; assumption. }
  assert (Hc : list_count (repeat L n) L = Z.of_nat n).
  { unfold list_count. rewrite count_occ_repeat_eq; reflexivity. }
  assert (Hset : list_set (repeat L n) = [L]).
  { apply singleton_list; [apply list_set_NoDup|].
    intros x. rewrite list_set_In. split.
    - apply repeat_spec.
    - intros ->. destruct n; [lia | left; reflexivity]. }
  assert (Hr : retainedb (repeat L n) med mad L = true).
  { apply retainedb_spec. unfold retained, upper_bound.
    split; [exact HL|]. split; [|lia].
    rewrite Hm, Hd. setoid_replace (inject_Z L + 10 * 0)%Q with (inject_Z L) by ring.
    apply Qle_refl. }
  assert (Hk : kept (repeat L n) med mad = [L]).
  { unfold kept. rewrite Hset. cbn [filter]. rewrite Hr. reflexivity. }
  assert (HT : total (repeat L n) med mad = Z.of_nat n).
  { unfold total. rewrite Hk. cbn [map]. rewrite list_sum_cons, Hc.
    unfold list_sum. simpl. lia. }
  rewrite Hk, HT. cbn [map]. rewrite Hc.
  assert (Hone : Qred (inject_Z (Z.of_nat n) / Qred (inject_Z (Z.of_nat n)))
                 = Qred 1).
  { apply Qred_complete. rewrite Qred_correct. field.
    intros Hz. unfold Qeq, inject_Z in Hz. cbn [Qnum Qden] in Hz. lia. }
  rewrite Hone. reflexivity.
Qed.

(** X9: when all the observations are the same positive length [L] and
    there are at least 100 of them, the result is that single length with
    probability 1.0, whatever the enumeration of the set. *)
Theorem compute_probs_single_length (L : Z) (n : nat) :
  0 < L -> (100 <= n)%nat ->
  compute_probs (repeat L n) = Ok ([L], [PFloat 1]).
Proof. intros HL Hn. apply compute_probs_repeat; assumption. Qed.

(** X10: [compute_probs] raises on the empty sequence only, and then
    [IndexError]; on no input does it raise [ZeroDivisionError]. *)
Theorem compute_probs_raises_iff (datalist : list Z) (e : exn) :
  compute_probs datalist = Raise e <-> datalist = [] /\ e = IndexError.
Proof.
  split.
  - apply compute_probs_raise.
  - intros [-> ->]. reflexivity.
Qed.

End DistributionScenario.

Lemma compute_probs_single_length_witness :
  0 < 300 /\ (100 <= 150)%nat /\
  compute_probs (repeat 300 150) = Ok ([300], [PFloat 1]).
Proof.
  assert (HL : 0 < 300) by lia.
  assert (Hn : (100 <= 150)%nat) by lia.
  split; [exact HL|]. split; [exact Hn|].
  exact (compute_probs_single_length 300 150 HL Hn).
Defined.


(** ** Only the upper tail is cut *)

Lemma median_absolute_deviation_nonneg (S : list num) (r : num) :
  median_absolute_deviation S = Ok r -> (0 <= num_val r)%Q.
Proof.
  unfold median_absolute_deviation.
  destruct (median S) as [m|e]; cbn [bind]; [|discriminate].
  intros Hr.
  assert (Hdev : forall d,
             In d (sorted num_ltb
                     (map (fun item => num_abs (num_sub item m)) S)) ->
             (0 <= num_val d /\ num_val d <= num_val d)%Q).
  { intros d Hin. split; [|apply Qle_refl].
    apply (Permutation_in _ (sorted_perm num_ltb _)) in Hin.
    apply in_map_iff in Hin. destruct Hin as [y [<- _]].
    rewrite num_val_abs. apply Qabs_nonneg. }
  pose proof (median_nonempty _ _ Hr) as Hne.
  destruct (Nat.odd (length (sorted num_ltb
              (map (fun item => num_abs (num_sub item m)) S)))) eqn:Hodd.
  - destruct (median_odd _ Hodd) as [y [Hy Hmy]].
    rewrite Hr in Hmy. injection Hmy as ->.
    apply Hdev, (nth_error_In _ _ Hy).
  - assert (Heven : Nat.even (length (sorted num_ltb
               (map (fun item => num_abs (num_sub item m)) S))) = true).
    { rewrite <- Nat.negb_odd, Hodd. reflexivity. }
    destruct (median_even _ Hne Heven) as [a [b [q [Ha [Hb [Hmq Hq]]]]]].
    rewrite Hr in Hmq. injection Hmq as ->.
    apply nth_error_In, Hdev in Ha. apply nth_error_In, Hdev in Hb.
    cbn [num_val]. rewrite Hq.
    apply Qle_shift_div_l; [reflexivity|]. lra.
Qed.

Section UpperTail.
Context {E : SetEnum}.

(** X12: the deviation test never removes a length at or below the
    median: every positive length that is at most the median and is seen
    at least 100 times is among the returned values. *)
Theorem compute_probs_keeps_lower_tail
    (datalist values : list Z) (probabilities : list num) (med : num) (v : Z) :
  compute_probs datalist = Ok (values, probabilities) ->
  median (ints datalist) = Ok med ->
  0 < v ->
  (inject_Z v <= num_val med)%Q ->
  100 <= list_count datalist v ->
  In v values.
Proof.
  intros Hok Hmed Hpos Hle Hc.
  destruct (compute_probs_inv _ _ _ Hok) as [med' [mad [Hmed' [Hmad [-> _]]]]].
  rewrite Hmed in Hmed'. injection Hmed' as <-.
  apply kept_In. split; [exact Hpos|]. split; [|exact Hc].
  pose proof (median_absolute_deviation_nonneg _ _ Hmad) as Hnn.
  unfold upper_bound. lra.
Qed.

End UpperTail.

Lemma compute_probs_keeps_lower_tail_witness :
  compute_probs (repeat 4 100 ++ repeat 5 300 ++ repeat 6 100)
  = Ok ([4; 5], [PFloat (1 # 4); PFloat (3 # 4)]) /\
  median (ints (repeat 4 100 ++ repeat 5 300 ++ repeat 6 100))
  = Ok (PFloat 5) /\
  In 4 [4; 5].
Proof.
  assert (Hok : compute_probs (repeat 4 100 ++ repeat 5 300 ++ repeat 6 100)
                = Ok ([4; 5], [PFloat (1 # 4); PFloat (3 # 4)]))
    by (vm_compute; reflexivity).
  assert (Hmed : median (ints (repeat 4 100 ++ repeat 5 300 ++ repeat 6 100))
                 = Ok (PFloat 5)) by (vm_compute; reflexivity).
  split; [exact Hok|]. split; [exact Hmed|].
  refine (compute_probs_keeps_lower_tail _ _ _ _ 4 Hok Hmed _ _ _).
  - lia.
  - cbn. discriminate.
  - vm_compute. discriminate.
Defined.

